(** * Keyboard navigation of the block editor: connection resolution and focus

    A shallow embedding of [core/keyboard_nav/navigation.js].  The module
    [Blockly.navigation] is a set of functions over process-wide state (the
    cursor, the marker, the focus state, the selected category and flyout
    block) that call into the connection graph (blocks and connections), the
    toolbox tree and the flyout.  The functions of navigation.js are
    translated one by one as computations in a small state-and-exception
    monad; the collaborators whose code is not part of navigation.js are
    either modelled (the connection graph) or taken as parameters (the
    compatibility check, the superior/inferior predicate, the category tree,
    cursor stepping). *)

From Stdlib Require Import ZArith Lia.
From stdpp Require Import base option list strings relations.

Open Scope Z_scope.
Open Scope nat_scope.

(** ** The connection graph *)

Definition ConnId := nat.
Definition BlockId := nat.
Definition FieldId := nat.
Definition Coordinate := (Z * Z)%type.

(** Connection types ([Blockly.INPUT_VALUE] ... [Blockly.PREVIOUS_STATEMENT]). *)
Inductive ConnType :=
  | INPUT_VALUE
  | OUTPUT_VALUE
  | NEXT_STATEMENT
  | PREVIOUS_STATEMENT.

Global Instance ConnType_eq_dec : EqDecision ConnType.
Proof. solve_decision. Defined.

(** A connection object: [type], [sourceBlock_] and [targetConnection]. *)
Record Connection := mkConnection {
  c_type : ConnType;
  c_sourceBlock : BlockId;
  c_target : option ConnId
}.

(** A block object: the connection fields navigation.js reads, the
    [connection] of each input of [inputList] in declaration order ([None]
    for an input that has no connection, a dummy input), the shadow flag
    and the position of the block. *)
Record Block := mkBlock {
  b_previousConnection : option ConnId;
  b_outputConnection : option ConnId;
  b_nextConnection : option ConnId;
  b_inputList : list (option ConnId);
  b_isShadow : bool;
  b_xy : Coordinate
}.

(** The heap of connection and block objects; a reference is an index. *)
Record Graph := mkGraph {
  conns : list Connection;
  blocks : list Block
}.

Definition noConnection : Connection := mkConnection PREVIOUS_STATEMENT 0 None.
Definition noBlock : Block := mkBlock None None None [] false (0%Z, 0%Z).

Definition theConn (g : Graph) (c : ConnId) : Connection :=
  default noConnection (conns g !! c).
Definition theBlock (g : Graph) (b : BlockId) : Block :=
  default noBlock (blocks g !! b).

Definition connType (g : Graph) (c : ConnId) : ConnType := c_type (theConn g c).
Definition getSourceBlock (g : Graph) (c : ConnId) : BlockId :=
  c_sourceBlock (theConn g c).
Definition targetConnection (g : Graph) (c : ConnId) : option ConnId :=
  c_target (theConn g c).
Definition isConnected (g : Graph) (c : ConnId) : bool :=
  bool_decide (is_Some (targetConnection g c)).

Definition previousConnection (g : Graph) (b : BlockId) : option ConnId :=
  b_previousConnection (theBlock g b).
Definition outputConnection (g : Graph) (b : BlockId) : option ConnId :=
  b_outputConnection (theBlock g b).
Definition nextConnection (g : Graph) (b : BlockId) : option ConnId :=
  b_nextConnection (theBlock g b).
Definition inputList (g : Graph) (b : BlockId) : list (option ConnId) :=
  b_inputList (theBlock g b).
Definition isShadow (g : Graph) (b : BlockId) : bool := b_isShadow (theBlock g b).

(** [topConnection]: the expression
    [block.previousConnection ? block.previousConnection : block.outputConnection]
    of [getTopNode_] and [moveCursorOnBlockDelete]; its target is the
    block's attachment point on its parent. *)
Definition topConnection (g : Graph) (b : BlockId) : option ConnId :=
  match previousConnection g b with
  | Some p => Some p
  | None => outputConnection g b
  end.

Definition setTarget (g : Graph) (c : ConnId) (t : option ConnId) : Graph :=
  mkGraph (alter (λ k, mkConnection (c_type k) (c_sourceBlock k) t) c (conns g))
          (blocks g).

Definition setXY (g : Graph) (b : BlockId) (xy : Coordinate) : Graph :=
  mkGraph (conns g)
          (alter (λ k, mkBlock (b_previousConnection k) (b_outputConnection k)
                          (b_nextConnection k) (b_inputList k) (b_isShadow k) xy)
                 b (blocks g)).

(** Modelled from the spec: [Connection.prototype.disconnect], the sever
    primitive of the connection graph.  A join is mutual, so severing clears
    the [targetConnection] of both ends; a connection that is not joined is
    left as it is. *)
Definition disconnect (g : Graph) (c : ConnId) : Graph :=
  match targetConnection g c with
  | Some t => setTarget (setTarget g c None) t None
  | None => g
  end.

(** Modelled from the spec: [Connection.prototype.connect], the join
    primitive.  A connection has at most one target and a join is mutual:
    whatever either end was joined to is severed, then each end becomes the
    other's [targetConnection]. *)
Definition connectTo (g : Graph) (this other : ConnId) : Graph :=
  let g1 := disconnect g other in
  let g2 := disconnect g1 this in
  setTarget (setTarget g2 this (Some other)) other (Some this).

(** Modelled from the spec: [Block.prototype.getParent].  The parent is the
    block on the other end of the block's top connection. *)
Definition getParent (g : Graph) (b : BlockId) : option BlockId :=
  match topConnection g b with
  | Some c =>
      match targetConnection g c with
      | Some t => Some (getSourceBlock g t)
      | None => None
      end
  | None => None
  end.

(** The block and its chain of ancestors, nearest first, following at most
    [fuel] parent links. *)
Fixpoint ancestors (g : Graph) (fuel : nat) (b : BlockId) : list BlockId :=
  b :: match fuel with
       | 0 => []
       | S k => match getParent g b with
                | Some p => ancestors g k p
                | None => []
                end
       end.

(** Modelled from the spec: [Block.prototype.getRootBlock], the loop
    [do { root = block; block = root.getParent(); } while (block)].  The loop
    is cut after as many parent links as there are blocks, which is enough
    in a graph without a cycle ([rootFrom_is_root] below). *)
Fixpoint rootFrom (g : Graph) (fuel : nat) (b : BlockId) : BlockId :=
  match getParent g b with
  | None => b
  | Some p => match fuel with
              | 0 => b
              | S k => rootFrom g k p
              end
  end.

Definition getRootBlock (g : Graph) (b : BlockId) : BlockId :=
  rootFrom g (length (blocks g)) b.

(** Modelled from the spec: [Block.prototype.getDescendants], the descendant
    set of a block: the blocks from which the parent chain passes through
    [b], the block itself included. *)
Definition getDescendants (g : Graph) (b : BlockId) : list BlockId :=
  filter (λ d, b ∈ ancestors g (length (blocks g)) d) (seq 0 (length (blocks g))).

(** Modelled from the spec: [Block.prototype.unplug(false)], detaching a
    block from its parent. *)
Definition unplug (g : Graph) (b : BlockId) : Graph :=
  match topConnection g b with
  | Some c => disconnect g c
  | None => g
  end.

(** Modelled from the spec: [Block.prototype.moveTo], placing the block at a
    workspace coordinate. *)
Definition moveTo (g : Graph) (b : BlockId) (xy : Coordinate) : Graph := setXY g b xy.

(** *** Shape of a connection graph *)

(** [parent_of g c p]: block [p] is the parent of block [c]. *)
Definition parent_of (g : Graph) : relation BlockId :=
  λ c p, getParent g c = Some p.

(** A graph has a cycle when some block is its own proper ancestor. *)
Definition acyclic (g : Graph) : Prop := ∀ b, ¬ tc (parent_of g) b b.

(** The references of a graph are in order: the top connection of a block
    (its previous connection, else its output connection) is a connection
    of that block and of previous or output type, and the source block of
    every connection exists. *)
Definition valid (g : Graph) : Prop :=
  (∀ b c, topConnection g b = Some c →
          getSourceBlock g c = b ∧
          (connType g c = PREVIOUS_STATEMENT ∨ connType g c = OUTPUT_VALUE)) ∧
  (∀ c k, conns g !! c = Some k → c_sourceBlock k < length (blocks g)).

(** Joins are mutual: the target of a connection points back. *)
Definition mutual (g : Graph) : Prop :=
  ∀ c t, targetConnection g c = Some t → targetConnection g t = Some c.

(** The types that can be joined: previous with next, output with input. *)
Definition opposite (t1 t2 : ConnType) : bool :=
  match t1, t2 with
  | PREVIOUS_STATEMENT, NEXT_STATEMENT | NEXT_STATEMENT, PREVIOUS_STATEMENT
  | OUTPUT_VALUE, INPUT_VALUE | INPUT_VALUE, OUTPUT_VALUE => true
  | _, _ => false
  end.

(** A check that every parent chain ends at a block without parent within
    as many links as there are blocks. *)
Definition acyclicb (g : Graph) : bool :=
  forallb (λ b, bool_decide (getParent g (getRootBlock g b) = None))
          (seq 0 (length (blocks g))).

(** ** Locations (AST nodes) *)

(** [Blockly.ASTNode.types]. *)
Inductive NodeType :=
  | FIELD | BLOCK | INPUT | OUTPUT | NEXT | PREVIOUS | STACK | WORKSPACE.

Global Instance NodeType_eq_dec : EqDecision NodeType.
Proof. solve_decision. Defined.

(** Modelled from the spec: the location union.  A connection node carries
    the role of its connection. *)
Inductive ASTNode :=
  | FieldNode (f : FieldId)
  | BlockNode (b : BlockId)
  | StackNode (b : BlockId)
  | WorkspaceNode (wsCoordinate : Coordinate)
  | ConnectionNode (role : ConnType) (c : ConnId).

Definition getType (n : ASTNode) : NodeType :=
  match n with
  | FieldNode _ => FIELD
  | BlockNode _ => BLOCK
  | StackNode _ => STACK
  | WorkspaceNode _ => WORKSPACE
  | ConnectionNode INPUT_VALUE _ => INPUT
  | ConnectionNode OUTPUT_VALUE _ => OUTPUT
  | ConnectionNode NEXT_STATEMENT _ => NEXT
  | ConnectionNode PREVIOUS_STATEMENT _ => PREVIOUS
  end.

Definition isConnection (n : ASTNode) : bool :=
  match n with
  | ConnectionNode _ _ => true
  | _ => false
  end.

Definition createConnectionNode (g : Graph) (c : ConnId) : ASTNode :=
  ConnectionNode (connType g c) c.
Definition createBlockNode (b : BlockId) : ASTNode := BlockNode b.
Definition createWorkspaceNode (xy : Coordinate) : ASTNode := WorkspaceNode xy.

(** ** Collaborators, session state and the monad of navigation.js *)

(** The outcome of [this.canConnectWithReason_(target)]: either
    [Blockly.Connection.CAN_CONNECT] or a reason; the reason is kept as the
    text of the error that [checkConnection_] throws for it. *)
Inductive ConnectionCheck :=
  | CAN_CONNECT
  | REFUSED (e : string).

Global Instance ConnectionCheck_eq_dec : EqDecision ConnectionCheck.
Proof. solve_decision. Defined.

(** [Blockly.navigation.STATE_FLYOUT], [STATE_WS], [STATE_TOOLBOX]. *)
Inductive NavState := STATE_FLYOUT | STATE_WS | STATE_TOOLBOX.

Global Instance NavState_eq_dec : EqDecision NavState.
Proof. solve_decision. Defined.

Inductive Level := LOG | WARN | ERROR.

(** Calls that leave navigation.js towards the logging sink and the
    rendering layer; the session keeps them in call order. *)
Inductive Call :=
  | Report (level : Level) (msg : string)
  | PositionNearConnection (root : BlockId) (source target : ConnId)
  | BumpAwayFrom (inferior superior : ConnId)
  | BringToFront (b : BlockId)
  | Render (b : BlockId)
  | SetConnectionsHidden (b : BlockId) (hidden : bool)
  | Unselect (b : BlockId)
  | ShowEditor (f : FieldId).

(** A cursor object (the marker is one too): the node it holds and whether
    it is drawn.  Modelled from the spec: [setLocation] stores the node and
    shows the cursor, [hide] only clears the visibility. *)
Record Cursor := mkCursor {
  curNode_ : option ASTNode;
  shown : bool
}.

Definition getCurNode (c : Cursor) : option ASTNode := curNode_ c.
Definition setLocation (loc : option ASTNode) (c : Cursor) : Cursor := mkCursor loc true.
Definition hide (c : Cursor) : Cursor := mkCursor (curNode_ c) false.

(** The flyout of the workspace: its visibility and, when it has a
    workspace, that workspace's top blocks. *)
Record Flyout := mkFlyout {
  fl_visible : bool;
  fl_topBlocks : option (list BlockId)
}.

Inductive Exception := TypeError.

Section Navigation.

(** The state of the toolbox's category tree and the references to its
    nodes belong to the tree widget; they stay abstract. *)
Context {Tree Cat : Type} `{EqDecision Cat}.

(** The methods of the collaborators that navigation.js calls and whose
    code is elsewhere. *)
Record Env := mkEnv {
  (* Blockly.Connection *)
  isSuperior : ConnType → bool;
  canConnectWithReason_ : Graph → ConnId → ConnId → ConnectionCheck;
  (* Blockly.Cursor: the node a step leads to, if any *)
  cursorPrev : Graph → ASTNode → option ASTNode;
  cursorNext : Graph → ASTNode → option ASTNode;
  cursorIn : Graph → ASTNode → option ASTNode;
  cursorOut : Graph → ASTNode → option ASTNode;
  (* Blockly.tree.TreeControl and BaseNode *)
  firstChild_ : Tree → option Cat;
  setSelectedItem : option Cat → Tree → Tree;
  select : Cat → Tree → Tree;
  getNextShownNode : Tree → Cat → option Cat;
  getPreviousShownNode : Tree → Cat → option Cat;
  hasChildren : Tree → Cat → bool;
  getExpanded : Tree → Cat → bool;
  setExpanded : Cat → bool → Tree → Tree;
  getFirstChild : Tree → Cat → option Cat;
  isUserCollapsible : Tree → Cat → bool;
  getParentNode : Tree → Cat → option Cat;
  getTree : Tree → Cat → Cat;
  (* Blockly.Flyout.createBlock: the new graph and the new block, or
     nothing when the call throws *)
  createBlock : Graph → option BlockId → option (Graph * BlockId)
}.

(** The process-wide state of [Blockly.navigation] together with the
    objects it reaches. *)
Record Session := mkSession {
  graph : Graph;
  cursor_ : Cursor;
  marker_ : Cursor;
  currentCategory_ : option Cat;
  flyoutBlock_ : option BlockId;
  currentState_ : NavState;
  keyboardAccessibilityMode : bool;
  selected : option BlockId;      (* Blockly.selected *)
  hasToolbox : bool;              (* whether getMainWorkspace().getToolbox() is set *)
  tree_ : Tree;                   (* the category tree and the state of its nodes *)
  flyout : option Flyout;         (* the flyout of the workspace or of its toolbox *)
  calls : list Call
}.

Definition with_graph (f : Graph → Graph) (s : Session) : Session :=
  mkSession (f (graph s)) (cursor_ s) (marker_ s) (currentCategory_ s) (flyoutBlock_ s)
    (currentState_ s) (keyboardAccessibilityMode s) (selected s) (hasToolbox s) (tree_ s) (flyout s)
    (calls s).
Definition with_cursor (f : Cursor → Cursor) (s : Session) : Session :=
  mkSession (graph s) (f (cursor_ s)) (marker_ s) (currentCategory_ s) (flyoutBlock_ s)
    (currentState_ s) (keyboardAccessibilityMode s) (selected s) (hasToolbox s) (tree_ s) (flyout s)
    (calls s).
Definition with_marker (f : Cursor → Cursor) (s : Session) : Session :=
  mkSession (graph s) (cursor_ s) (f (marker_ s)) (currentCategory_ s) (flyoutBlock_ s)
    (currentState_ s) (keyboardAccessibilityMode s) (selected s) (hasToolbox s) (tree_ s) (flyout s)
    (calls s).
Definition with_category (c : option Cat) (s : Session) : Session :=
  mkSession (graph s) (cursor_ s) (marker_ s) c (flyoutBlock_ s)
    (currentState_ s) (keyboardAccessibilityMode s) (selected s) (hasToolbox s) (tree_ s) (flyout s)
    (calls s).
Definition with_flyoutBlock (b : option BlockId) (s : Session) : Session :=
  mkSession (graph s) (cursor_ s) (marker_ s) (currentCategory_ s) b
    (currentState_ s) (keyboardAccessibilityMode s) (selected s) (hasToolbox s) (tree_ s) (flyout s)
    (calls s).
Definition with_state (st : NavState) (s : Session) : Session :=
  mkSession (graph s) (cursor_ s) (marker_ s) (currentCategory_ s) (flyoutBlock_ s)
    st (keyboardAccessibilityMode s) (selected s) (hasToolbox s) (tree_ s) (flyout s) (calls s).
Definition with_accessibility (m : bool) (s : Session) : Session :=
  mkSession (graph s) (cursor_ s) (marker_ s) (currentCategory_ s) (flyoutBlock_ s)
    (currentState_ s) m (selected s) (hasToolbox s) (tree_ s) (flyout s) (calls s).
Definition with_selected (b : option BlockId) (s : Session) : Session :=
  mkSession (graph s) (cursor_ s) (marker_ s) (currentCategory_ s) (flyoutBlock_ s)
    (currentState_ s) (keyboardAccessibilityMode s) b (hasToolbox s) (tree_ s) (flyout s)
    (calls s).
Definition with_tree (f : Tree → Tree) (s : Session) : Session :=
  mkSession (graph s) (cursor_ s) (marker_ s) (currentCategory_ s) (flyoutBlock_ s)
    (currentState_ s) (keyboardAccessibilityMode s) (selected s) (hasToolbox s)
    (f (tree_ s)) (flyout s) (calls s).
Definition with_flyout (f : Flyout → Flyout) (s : Session) : Session :=
  mkSession (graph s) (cursor_ s) (marker_ s) (currentCategory_ s) (flyoutBlock_ s)
    (currentState_ s) (keyboardAccessibilityMode s) (selected s) (hasToolbox s)
    (tree_ s) (f <$> flyout s) (calls s).
Definition called (c : Call) (s : Session) : Session :=
  mkSession (graph s) (cursor_ s) (marker_ s) (currentCategory_ s) (flyoutBlock_ s)
    (currentState_ s) (keyboardAccessibilityMode s) (selected s) (hasToolbox s) (tree_ s) (flyout s)
    (calls s ++ [c]).

(** A call either returns a value or throws; both leave a session behind. *)
Inductive Outcome (A : Type) :=
  | Ret (a : A) (s : Session)
  | Throw (e : Exception) (s : Session).
Arguments Ret {A} a s.
Arguments Throw {A} e s.

Definition after {A} (o : Outcome A) : Session :=
  match o with
  | Ret _ s => s
  | Throw _ s => s
  end.

Definition M (A : Type) : Type := Session → Outcome A.

Definition ret {A} (a : A) : M A := λ s, Ret a s.
Definition throw {A} (e : Exception) : M A := λ s, Throw e s.
Definition bind {A B} (m : M A) (k : A → M B) : M B :=
  λ s, match m s with
       | Ret a s' => k a s'
       | Throw e s' => Throw e s'
       end.
Definition get : M Session := λ s, Ret s s.
Definition update (f : Session → Session) : M unit := λ s, Ret tt (f s).
Definition when (b : bool) (m : M unit) : M unit := if b then m else ret tt.

Notation "'let!' x := m 'in' k" := (bind m (λ x, k))
  (at level 10, x name, m at level 100, k at level 200).
Notation "'run!' m 'in' k" := (bind m (λ _, k))
  (at level 10, m at level 100, k at level 200).

Variable E : Env.

(** [Blockly.navigation.log] and [warn]: through [loggingCallback] or the
    console, the report leaves with its level and message. *)
Definition log (msg : string) : M unit := update (called (Report LOG msg)).
Definition warn (msg : string) : M unit := update (called (Report WARN msg)).

Definition markAtCursor : M unit :=
  update (λ s, with_marker (setLocation (getCurNode (cursor_ s))) s).

Definition removeMark : M unit :=
  run! update (with_marker (setLocation None)) in
  update (with_marker hide).

Definition getTopNode_ (g : Graph) (block : BlockId) : ASTNode :=
  match topConnection g block with
  | Some topConnection => createConnectionNode g topConnection
  | None => createBlockNode block
  end.

(** *** Toolbox navigation *)

(** Modelled from the spec: [Flyout.prototype.hide] makes the flyout
    invisible. *)
Definition hideFlyout (f : Flyout) : Flyout := mkFlyout false (fl_topBlocks f).

Definition resetFlyout (shouldHide : bool) : M unit :=
  run! update (with_flyoutBlock None) in
  run! update (with_cursor hide) in
  if shouldHide then
    let! s := get in
    match flyout s with
    | Some _ => update (with_flyout hideFlyout)
    | None => throw TypeError
    end
  else ret tt.

Definition focusToolbox : M unit :=
  run! resetFlyout false in
  run! update (with_state STATE_TOOLBOX) in
  let! s := get in
  let toolbox := hasToolbox s in
  run! match getCurNode (marker_ s) with
       | None => markAtCursor
       | Some _ => ret tt
       end in
  run! match currentCategory_ s with
       | None =>
           if toolbox
           then update (λ s', with_category (firstChild_ E (tree_ s')) s')
           else throw TypeError
       | Some _ => ret tt
       end in
  if toolbox
  then update (λ s', with_tree (setSelectedItem E (currentCategory_ s')) s')
  else throw TypeError.

Definition nextCategory : M unit :=
  let! s := get in
  match currentCategory_ s with
  | None => ret tt
  | Some curCategory =>
      match getNextShownNode E (tree_ s) curCategory with
      | Some nextNode =>
          run! update (with_tree (select E nextNode)) in
          update (with_category (Some nextNode))
      | None => ret tt
      end
  end.

Definition previousCategory : M unit :=
  let! s := get in
  match currentCategory_ s with
  | None => ret tt
  | Some curCategory =>
      match getPreviousShownNode E (tree_ s) curCategory with
      | Some previousNode =>
          run! update (with_tree (select E previousNode)) in
          update (with_category (Some previousNode))
      | None => ret tt
      end
  end.

(** *** Flyout navigation *)

Definition focusFlyout : M unit :=
  run! update (with_state STATE_FLYOUT) in
  let! s := get in
  let flyout := flyout s in
  run! match getCurNode (marker_ s) with
       | None => markAtCursor
       | Some _ => ret tt
       end in
  match flyout with
  | Some fl =>
      match fl_topBlocks fl with
      | Some (topBlock :: _) =>
          run! update (with_flyoutBlock (Some topBlock)) in
          update (with_cursor (setLocation (Some (createBlockNode topBlock))))
      | _ => ret tt
      end
  | None => ret tt
  end.

Definition inCategory : M unit :=
  let! s := get in
  match currentCategory_ s with
  | None => ret tt
  | Some curCategory =>
      if hasChildren E (tree_ s) curCategory then
        if negb (getExpanded E (tree_ s) curCategory) then
          update (with_tree (setExpanded E curCategory true))
        else
          match getFirstChild E (tree_ s) curCategory with
          | Some child =>
              run! update (with_tree (select E child)) in
              update (λ s', with_category (getFirstChild E (tree_ s') curCategory) s')
          | None => throw TypeError
          end
      else focusFlyout
  end.

Definition outCategory : M unit :=
  let! s := get in
  match currentCategory_ s with
  | None => ret tt
  | Some curCategory =>
      if hasChildren E (tree_ s) curCategory && getExpanded E (tree_ s) curCategory
         && isUserCollapsible E (tree_ s) curCategory
      then update (with_tree (setExpanded E curCategory false))
      else
        let parent := getParentNode E (tree_ s) curCategory in
        let tree := getTree E (tree_ s) curCategory in
        match parent with
        | Some parent =>
            if bool_decide (parent ≠ tree) then
              run! update (with_tree (select E parent)) in
              update (with_category (Some parent))
            else ret tt
        | None => ret tt
        end
  end.

Definition getFlyoutBlocks_ (s : Session) : list BlockId :=
  match flyout s with
  | Some fl => match fl_topBlocks fl with
               | Some topBlocks => topBlocks
               | None => []
               end
  | None => []
  end.

(** [Array.prototype.indexOf]; [None] stands for -1. *)
Fixpoint indexOf (l : list BlockId) (x : BlockId) : option nat :=
  match l with
  | [] => None
  | y :: l' => if decide (y = x) then Some 0 else S <$> indexOf l' x
  end.

Definition selectNextBlockInFlyout : M unit :=
  let! s := get in
  match flyoutBlock_ s with
  | None => ret tt
  | Some curBlock =>
      let blocks := getFlyoutBlocks_ s in
      let nextBlock :=
        match indexOf blocks curBlock with
        | Some curIdx => blocks !! S curIdx
        | None => None
        end in
      match nextBlock with
      | Some nextBlock =>
          run! update (with_flyoutBlock (Some nextBlock)) in
          update (with_cursor (setLocation (Some (createBlockNode nextBlock))))
      | None => ret tt
      end
  end.

Definition selectPreviousBlockInFlyout : M unit :=
  let! s := get in
  match flyoutBlock_ s with
  | None => ret tt
  | Some curBlock =>
      let blocks := getFlyoutBlocks_ s in
      let prevBlock :=
        match indexOf blocks curBlock with
        | Some (S curIdx) => blocks !! curIdx
        | _ => None
        end in
      match prevBlock with
      | Some prevBlock =>
          run! update (with_flyoutBlock (Some prevBlock)) in
          update (with_cursor (setLocation (Some (createBlockNode prevBlock))))
      | None => ret tt
      end
  end.

(** *** Modify *)

(** [c.disconnect()] on a value that may be null. *)
Definition disconnect_ (c : option ConnId) : M unit :=
  match c with
  | Some c => update (with_graph (λ g, disconnect g c))
  | None => throw TypeError
  end.

Definition getInferiorConnection_ (g : Graph) (connection : ConnId) : option ConnId :=
  let block := getSourceBlock g connection in
  if negb (isSuperior E (connType g connection)) then Some connection
  else match previousConnection g block with
       | Some p => Some p
       | None => match outputConnection g block with
                 | Some o => Some o
                 | None => None
                 end
       end.

Definition getSuperiorConnection_ (g : Graph) (connection : ConnId) : option ConnId :=
  if isSuperior E (connType g connection) then Some connection
  else match targetConnection g connection with
       | Some t => Some t
       | None => None
       end.

Definition disconnectChild_ (movingConnection destConnection : ConnId) : M unit :=
  let! s := get in
  let g := graph s in
  let movingBlock := getSourceBlock g movingConnection in
  let destBlock := getSourceBlock g destConnection in
  if bool_decide (getRootBlock g movingBlock = getRootBlock g destBlock) then
    if bool_decide (destBlock ∈ getDescendants g movingBlock) then
      disconnect_ (getInferiorConnection_ g destConnection)
    else
      disconnect_ (getInferiorConnection_ g movingConnection)
  else ret tt.

(** The body of [moveAndConnect_] once the compatibility check has passed. *)
Definition join (movingConnection destConnection : ConnId) : M bool :=
  let! s := get in
  let movingBlock := getSourceBlock (graph s) movingConnection in
  run! disconnectChild_ movingConnection destConnection in
  let! s1 := get in
  run! when (negb (isSuperior E (connType (graph s1) destConnection)))
         (let rootBlock := getRootBlock (graph s1) movingBlock in
          update (called (PositionNearConnection rootBlock movingConnection destConnection))) in
  run! update (with_graph (λ g, connectTo g destConnection movingConnection)) in
  ret true.

Definition moveAndConnect_ (movingConnection destConnection : option ConnId) : M bool :=
  match movingConnection, destConnection with
  | Some movingConnection, Some destConnection =>
      let! s := get in
      if bool_decide (canConnectWithReason_ E (graph s) destConnection movingConnection
                      = CAN_CONNECT)
      then join movingConnection destConnection
      else ret false
  | _, _ => ret false
  end.

(** Modelled from the spec: [destConnection.checkConnection_(moving)] raises
    the reason found by the compatibility check; [connect] catches it and
    reports its text. *)
Definition checkConnection_caught (destConnection movingConnection : ConnId) : M unit :=
  let! s := get in
  match canConnectWithReason_ E (graph s) destConnection movingConnection with
  | CAN_CONNECT => ret tt
  | REFUSED e => warn ("Connection failed with error: " +:+ e)
  end.

Definition connect (movingConnection destConnection : option ConnId) : M bool :=
  match movingConnection, destConnection with
  | Some moving, Some dest =>
      let! s := get in
      let movingInferior := getInferiorConnection_ (graph s) moving in
      let destSuperior := getSuperiorConnection_ (graph s) dest in
      let movingSuperior := getSuperiorConnection_ (graph s) moving in
      let destInferior := getInferiorConnection_ (graph s) dest in
      let! first :=
        match movingInferior, destSuperior with
        | Some _, Some _ => moveAndConnect_ movingInferior destSuperior
        | _, _ => ret false
        end in
      if first then ret true
      else
        let! second :=
          match movingSuperior, destInferior with
          | Some _, Some _ => moveAndConnect_ movingSuperior destInferior
          | _, _ => ret false
          end in
        if second then ret true
        else
          let! third := moveAndConnect_ movingConnection destConnection in
          if third then ret true
          else
            run! checkConnection_caught dest moving in
            ret false
  | _, _ => ret false
  end.

(** The [for] loop of [insertBlock] over [block.inputList]; it gives [true]
    when it has returned from [insertBlock].  The loop reads
    [inputConnection.type] without a test for null, so it throws at an input
    that has no connection. *)
Fixpoint insertBlock_inputs (inputs : list (option ConnId)) (destConnection : ConnId)
  : M bool :=
  match inputs with
  | [] => ret false
  | None :: _ => throw TypeError        (* inputConnection.type on null *)
  | Some inputConnection :: rest =>
      let! s := get in
      let! joined :=
        if bool_decide (connType (graph s) inputConnection = INPUT_VALUE)
        then moveAndConnect_ (Some inputConnection) (Some destConnection)
        else ret false in
      if joined then ret true
      else insertBlock_inputs rest destConnection
  end.

Definition insertBlock (block : BlockId) (destConnection : ConnId) : M bool :=
  let! s := get in
  let g := graph s in
  let! done :=
    match connType g destConnection with
    | PREVIOUS_STATEMENT => moveAndConnect_ (nextConnection g block) (Some destConnection)
    | NEXT_STATEMENT => moveAndConnect_ (previousConnection g block) (Some destConnection)
    | INPUT_VALUE => moveAndConnect_ (outputConnection g block) (Some destConnection)
    | OUTPUT_VALUE => insertBlock_inputs (inputList g block) destConnection
    end in
  if done then ret true
  else
    run! warn "This block can not be inserted at the marked location." in
    ret false.

(** The tail of the workspace branch of [modify], from [block.isShadow()]. *)
Definition moveToWorkspace (block : BlockId) (wsCoordinate : Coordinate) : M bool :=
  let! s := get in
  if isShadow (graph s) block then
    run! warn "Cannot move a shadow block to the workspace." in
    ret false
  else
    run! when (bool_decide (is_Some (getParent (graph s) block)))
           (update (with_graph (λ g, unplug g block))) in
    run! update (with_graph (λ g, moveTo g block wsCoordinate)) in
    ret true.

Definition unexpectedState : M bool :=
  run! warn "Unexpected state in Blockly.navigation.modify." in
  ret false.

Definition modify : M bool :=
  let! s := get in
  match getCurNode (marker_ s) with
  | None =>
      run! warn "Cannot insert with no marked node." in
      ret false
  | Some markerNode =>
      match getCurNode (cursor_ s) with
      | None =>
          run! warn "Cannot insert with no cursor node." in
          ret false
      | Some cursorNode =>
          let markerType := getType markerNode in
          let cursorType := getType cursorNode in
          if bool_decide (markerType = FIELD) then
            run! warn "Should not have been able to mark a field." in
            ret false
          else if bool_decide (markerType = BLOCK) then
            run! warn "Should not have been able to mark a block." in
            ret false
          else if bool_decide (markerType = STACK) then
            run! warn "Should not have been able to mark a stack." in
            ret false
          else if bool_decide (cursorType = FIELD) then
            run! warn "Cannot attach a field to anything else." in
            ret false
          else if bool_decide (cursorType = WORKSPACE) then
            run! warn "Cannot attach a workspace to anything else." in
            ret false
          else
            match markerNode with
            | ConnectionNode _ markerLoc =>
                match cursorNode with
                | ConnectionNode _ cursorLoc => connect (Some cursorLoc) (Some markerLoc)
                | BlockNode cursorLoc | StackNode cursorLoc =>
                    insertBlock cursorLoc markerLoc
                | _ => unexpectedState
                end
            | WorkspaceNode wsCoordinate =>
                match cursorNode with
                | ConnectionNode _ cursorLoc =>
                    if bool_decide (cursorType = INPUT) || bool_decide (cursorType = NEXT)
                    then
                      run! warn "Cannot move a next or input connection to the workspace." in
                      ret false
                    else moveToWorkspace (getSourceBlock (graph s) cursorLoc) wsCoordinate
                | BlockNode cursorLoc | StackNode cursorLoc =>
                    moveToWorkspace cursorLoc wsCoordinate
                | _ => ret false
                end
            | _ => unexpectedState
            end
      end
  end.

Definition disconnectBlocks : M unit :=
  let! s := get in
  match getCurNode (cursor_ s) with
  | None => throw TypeError        (* curNode.isConnection() on null *)
  | Some (ConnectionNode _ curConnection) =>
      let g := graph s in
      match targetConnection g curConnection with
      | None => log "Cannot disconnect unconnected connection"
      | Some target =>
          let superiorConnection :=
            if isSuperior E (connType g curConnection) then curConnection else target in
          let inferiorConnection :=
            if isSuperior E (connType g curConnection) then target else curConnection in
          if isShadow g (getSourceBlock g inferiorConnection) then
            log "Cannot disconnect a shadow block"
          else
            run! update (with_graph (λ g, disconnect g superiorConnection)) in
            run! update (called (BumpAwayFrom inferiorConnection superiorConnection)) in
            let! s1 := get in
            let rootBlock :=
              getRootBlock (graph s1) (getSourceBlock (graph s1) superiorConnection) in
            run! update (called (BringToFront rootBlock)) in
            update (with_cursor
                      (setLocation (Some (createConnectionNode (graph s1) superiorConnection))))
      end
  | Some _ => log "Cannot disconnect blocks when the cursor is not on a connection"
  end.

(** *** Keyboard navigation *)

Definition enableKeyboardAccessibility : M unit := update (with_accessibility true).
Definition disableKeyboardAccessibility : M unit := update (with_accessibility false).

Definition focusWorkspace : M unit :=
  let! s := get in
  let reset := if hasToolbox s then true else false in
  run! resetFlyout reset in
  run! update (with_state STATE_WS) in
  run! enableKeyboardAccessibility in
  let! s1 := get in
  match selected s1 with
  | Some sel =>
      run! update (with_cursor (setLocation (Some (getTopNode_ (graph s1) sel)))) in
      (* Blockly.selected.unselect() *)
      run! update (called (Unselect sel)) in
      update (with_selected None)
  | None =>
      let wsCoord := (100%Z, 100%Z) in
      let wsNode := createWorkspaceNode wsCoord in
      update (with_cursor (setLocation (Some wsNode)))
  end.

Definition insertFromFlyout : M unit :=
  let! s := get in
  match flyout s with
  | Some fl =>
      if fl_visible fl then
        match createBlock E (graph s) (flyoutBlock_ s) with
        | Some (g', newBlock) =>
            run! update (with_graph (λ _, g')) in
            run! update (called (Render newBlock)) in
            run! update (called (SetConnectionsHidden newBlock false)) in
            run! update (with_cursor (setLocation (Some (createBlockNode newBlock)))) in
            let! ok := modify in
            run! when (negb ok)
                   (warn "Something went wrong while inserting a block from the flyout.") in
            run! focusWorkspace in
            run! update (λ s', with_cursor
                                 (setLocation (Some (getTopNode_ (graph s') newBlock))) s') in
            removeMark
        | None => throw TypeError
        end
      else
        warn "Trying to insert from the flyout when the flyout does not  exist or is not visible"
  | None =>
      warn "Trying to insert from the flyout when the flyout does not  exist or is not visible"
  end.

Definition handleEnterForWS : M unit :=
  let! s := get in
  match getCurNode (cursor_ s) with
  | None => throw TypeError        (* curNode.getType() on null *)
  | Some curNode =>
      match curNode with
      | FieldNode location => update (called (ShowEditor location))
      | ConnectionNode _ _ | WorkspaceNode _ => markAtCursor
      | BlockNode _ => warn "Cannot mark a block."
      | StackNode _ => warn "Cannot mark a stack."
      end
  end.

(** [cursor_.prev()], [next()], [in()], [out()].  Modelled from the spec: a
    step moves the cursor to the node it leads to and is a silent no-op when
    there is none. *)
Definition step (to : Graph → ASTNode → option ASTNode) : M unit :=
  let! s := get in
  match getCurNode (cursor_ s) with
  | Some curNode =>
      match to (graph s) curNode with
      | Some newNode => update (with_cursor (setLocation (Some newNode)))
      | None => ret tt
      end
  | None => ret tt
  end.

(** [Blockly.navigation.actionNames]. *)
Definition PREVIOUS_ : string := "previous".
Definition NEXT_ : string := "next".
Definition IN_ : string := "in".
Definition OUT_ : string := "out".
Definition INSERT_ : string := "insert".
Definition MARK_ : string := "mark".
Definition DISCONNECT_ : string := "disconnect".
Definition TOOLBOX_ : string := "toolbox".
Definition EXIT_ : string := "exit".

Definition handled (m : M unit) : M bool := run! m in ret true.

Definition workspaceOnAction_ (name : string) : M bool :=
  if bool_decide (name = PREVIOUS_) then handled (step (cursorPrev E))
  else if bool_decide (name = OUT_) then handled (step (cursorOut E))
  else if bool_decide (name = NEXT_) then handled (step (cursorNext E))
  else if bool_decide (name = IN_) then handled (step (cursorIn E))
  else if bool_decide (name = INSERT_) then handled (run! modify in ret tt)
  else if bool_decide (name = MARK_) then handled handleEnterForWS
  else if bool_decide (name = DISCONNECT_) then handled disconnectBlocks
  else if bool_decide (name = TOOLBOX_) then
    handled (let! s := get in
             if negb (hasToolbox s) then focusFlyout else focusToolbox)
  else ret false.

Definition flyoutOnAction_ (name : string) : M bool :=
  if bool_decide (name = PREVIOUS_) then handled selectPreviousBlockInFlyout
  else if bool_decide (name = OUT_) then handled focusToolbox
  else if bool_decide (name = NEXT_) then handled selectNextBlockInFlyout
  else if bool_decide (name = MARK_) then handled insertFromFlyout
  else if bool_decide (name = EXIT_) then handled focusWorkspace
  else ret false.

Definition toolboxOnAction_ (name : string) : M bool :=
  if bool_decide (name = PREVIOUS_) then handled previousCategory
  else if bool_decide (name = OUT_) then handled outCategory
  else if bool_decide (name = NEXT_) then handled nextCategory
  else if bool_decide (name = IN_) then handled inCategory
  else if bool_decide (name = EXIT_) then handled focusWorkspace
  else ret false.

Definition onBlocklyAction (name : string) : M bool :=
  let! s := get in
  match currentState_ s with
  | STATE_WS => workspaceOnAction_ name
  | STATE_FLYOUT => flyoutOnAction_ name
  | STATE_TOOLBOX => toolboxOnAction_ name
  end.

(** *** The resolution as the specification words it *)

(** The inferior counterpart of a connection: itself if inferior, else the
    previous connection of its block if present, else the output connection,
    else none. *)
Definition inferior_counterpart (g : Graph) (c : ConnId) : option ConnId :=
  if isSuperior E (connType g c)
  then topConnection g (getSourceBlock g c)
  else Some c.

(** The superior counterpart: itself if superior, else its current target
    if joined. *)
Definition superior_counterpart (g : Graph) (c : ConnId) : option ConnId :=
  if isSuperior E (connType g c) then Some c else targetConnection g c.

(** The three candidate pairs (moving side, destination side), in the order
    in which they are tried. *)
Definition candidates (g : Graph) (moving dest : ConnId)
  : list (option ConnId * option ConnId) :=
  [ (inferior_counterpart g moving, superior_counterpart g dest);
    (superior_counterpart g moving, inferior_counterpart g dest);
    (Some moving, Some dest) ].

(** A pair passes when both sides are present and the destination side
    accepts the moving side. *)
Definition compatible (g : Graph) (p : option ConnId * option ConnId) : bool :=
  match p with
  | (Some moving, Some dest) =>
      bool_decide (canConnectWithReason_ E g dest moving = CAN_CONNECT)
  | _ => false
  end.

(** The connections of the inputs of a block, in declaration order; an
    input without connection contributes none. *)
Definition inputConnections (g : Graph) (block : BlockId) : list ConnId :=
  omap id (inputList g block).

(** The connections of a block offered to a destination connection, by the
    type of the destination. *)
Definition offered (g : Graph) (block : BlockId) (dest : ConnId) : list (option ConnId) :=
  match connType g dest with
  | PREVIOUS_STATEMENT => [nextConnection g block]
  | NEXT_STATEMENT => [previousConnection g block]
  | INPUT_VALUE => [outputConnection g block]
  | OUTPUT_VALUE =>
      Some <$> filter (λ c, connType g c = INPUT_VALUE) (inputConnections g block)
  end.

(** The connections that the loop of [insertBlock] reads before it comes to
    an input without connection. *)
Fixpoint leadingConnections (inputs : list (option ConnId)) : list ConnId :=
  match inputs with
  | Some c :: rest => c :: leadingConnections rest
  | _ => []
  end.

(** The session after one more report. *)
Definition reported (l : Level) (msg : string) (s : Session) : Session :=
  called (Report l msg) s.

(** Whether the source blocks of two connections have the same root. *)
Definition share_root (g : Graph) (moving dest : ConnId) : bool :=
  bool_decide (getRootBlock g (getSourceBlock g moving)
               = getRootBlock g (getSourceBlock g dest)).

(** The connection on the descendant side: the destination when its block
    is a descendant of the moving block, else the moving connection. *)
Definition descendant_side (g : Graph) (moving dest : ConnId) : ConnId :=
  if bool_decide (getSourceBlock g dest ∈ getDescendants g (getSourceBlock g moving))
  then dest else moving.

(** The session after a pair was joined: first the link [sever], if any,
    is severed; the root of the moving block is positioned near the
    destination when the destination is not superior; then the two
    connections are joined. *)
Definition joined (s : Session) (moving dest : ConnId) (sever : option ConnId) : Session :=
  let g1 := match sever with
            | Some x => disconnect (graph s) x
            | None => graph s
            end in
  let s1 := with_graph (λ _, g1) s in
  let s2 := if isSuperior E (connType g1 dest) then s1
            else called (PositionNearConnection
                           (getRootBlock g1 (getSourceBlock (graph s) moving))
                           moving dest) s1 in
  with_graph (λ g, connectTo g dest moving) s2.

(** The contract of the collaborators that the cycle argument relies on:
    next and input connections are the superior ones (previous and output
    connections are what [getInferiorConnection_] returns as inferior), and
    the compatibility check accepts only connections of opposite types on
    two different blocks. *)
Definition roles_ok : Prop :=
  ∀ t, isSuperior E t = bool_decide (t = NEXT_STATEMENT ∨ t = INPUT_VALUE).

Definition check_ok : Prop :=
  ∀ g this target,
    canConnectWithReason_ E g this target = CAN_CONNECT →
    getSourceBlock g this ≠ getSourceBlock g target ∧
    opposite (connType g this) (connType g target) = true.

End Navigation.

Arguments Ret {Tree Cat A} a s.
Arguments Throw {Tree Cat A} e s.

(** ** Statements about locations, independent of the collaborators *)

(** The pairs (marker, cursor) that [modify] turns down at once: one of
    them is null, the marker is a field, block or stack, or the cursor is a
    field or a workspace location. *)
Definition rejected_pair (marker cursor : option ASTNode) : Prop :=
  marker = None ∨ cursor = None ∨
  (∃ m, marker = Some m ∧ (getType m = FIELD ∨ getType m = BLOCK ∨ getType m = STACK)) ∨
  (∃ c, cursor = Some c ∧ (getType c = FIELD ∨ getType c = WORKSPACE)).

(** The block a cursor location stands for when it is dropped on the
    workspace: its own block, or its connection's source block. *)
Definition blockOf (g : Graph) (n : ASTNode) : BlockId :=
  match n with
  | ConnectionNode _ c => getSourceBlock g c
  | BlockNode b | StackNode b => b
  | _ => 0
  end.

(** The graph after a block was detached from its parent, if it had one,
    and moved to a coordinate. *)
Definition dropped (g : Graph) (block : BlockId) (xy : Coordinate) : Graph :=
  moveTo (match getParent g block with
          | Some _ => unplug g block
          | None => g
          end) block xy.

(** ** A small editor to run the functions on *)

Definition TYPE_ERROR : string := "Error: Attempt to connect incompatible types.".
Definition SELF_ERROR : string := "Error: Attempted to connect a block to itself.".

(** An environment with the usual roles (next and input are superior), a
    check that refuses a block joined to itself and types that are not
    opposite, a cursor that cannot step and an empty category tree. *)
Definition E0 : @Env unit nat :=
  mkEnv
    (λ t, bool_decide (t = NEXT_STATEMENT ∨ t = INPUT_VALUE))
    (λ g this target,
       if bool_decide (getSourceBlock g this = getSourceBlock g target)
       then REFUSED SELF_ERROR
       else if opposite (connType g this) (connType g target) then CAN_CONNECT
       else REFUSED TYPE_ERROR)
    (λ _ _, None) (λ _ _, None) (λ _ _, None) (λ _ _, None)
    (λ _, None) (λ _ t, t) (λ _ t, t) (λ _ _, None) (λ _ _, None)
    (λ _ _, false) (λ _ _, false) (λ _ _ t, t) (λ _ _, None) (λ _ _, false)
    (λ _ _, None) (λ _ c, c)
    (λ g _, Some (mkGraph (conns g) (blocks g ++ [noBlock]), length (blocks g))).

(** Five blocks: statement blocks 0 and 1 stacked (1 below 0), a value
    block 2, a statement block 3 with one value input, a shadow value block 4
    plugged into the second input of block 3. *)
Definition g0 : Graph :=
  mkGraph
    [ mkConnection PREVIOUS_STATEMENT 0 None;      (* 0: previous of block 0 *)
      mkConnection NEXT_STATEMENT 0 (Some 2);      (* 1: next of block 0 *)
      mkConnection PREVIOUS_STATEMENT 1 (Some 1);  (* 2: previous of block 1 *)
      mkConnection NEXT_STATEMENT 1 None;          (* 3: next of block 1 *)
      mkConnection OUTPUT_VALUE 2 None;            (* 4: output of block 2 *)
      mkConnection INPUT_VALUE 3 None;             (* 5: first input of block 3 *)
      mkConnection PREVIOUS_STATEMENT 3 None;      (* 6: previous of block 3 *)
      mkConnection INPUT_VALUE 3 (Some 8);         (* 7: second input of block 3 *)
      mkConnection OUTPUT_VALUE 4 (Some 7) ]       (* 8: output of block 4 *)
    [ mkBlock (Some 0) None (Some 1) [] false (0, 0)%Z;
      mkBlock (Some 2) None (Some 3) [] false (0, 20)%Z;
      mkBlock None (Some 4) None [] false (200, 0)%Z;
      mkBlock (Some 6) None None [Some 5; Some 7] false (300, 0)%Z;
      mkBlock None (Some 8) None [] true (320, 0)%Z ].

(** The same blocks, where the value block 2 shows a field: as in a number
    or text block, the field sits in an input that has no connection. *)
Definition g1 : Graph :=
  mkGraph (conns g0)
          (<[2 := mkBlock None (Some 4) None [None] false (200, 0)%Z]> (blocks g0)).

(** A session on the workspace holding the given cursor and marker nodes. *)
Definition session (g : Graph) (cursor marker : option ASTNode) : @Session unit nat :=
  mkSession g (mkCursor cursor true) (mkCursor marker true) None None STATE_WS true
            None false tt None [].

(** The same editor with focus on the flyout, which is open and shows the
    value block 2. *)
Definition flyoutSession (g : Graph) (cursor marker : option ASTNode) : @Session unit nat :=
  mkSession g (mkCursor cursor true) (mkCursor marker true) None (Some 2) STATE_FLYOUT
            true None false tt (Some (mkFlyout true (Some [2]))) [].

(** The session after [disconnectBlocks] has severed a join: the graph
    without the join, the bump and bring-to-front calls, and the cursor on
    the superior connection. *)
Definition severed {Tree Cat} (s : @Session Tree Cat) (superior inferior : ConnId)
  : @Session Tree Cat :=
  let g' := disconnect (graph s) superior in
  with_cursor (setLocation (Some (createConnectionNode g' superior)))
    (called (BringToFront (getRootBlock g' (getSourceBlock g' superior)))
       (called (BumpAwayFrom inferior superior)
          (with_graph (λ _, g') s))).

(** The session in which [insertFromFlyout] calls [modify]: the new block is
    in the graph, rendered, with its connections shown, and the cursor is on
    it. *)
Definition inserting {Tree Cat} (s : @Session Tree Cat) (g' : Graph) (newBlock : BlockId)
  : @Session Tree Cat :=
  with_cursor (setLocation (Some (createBlockNode newBlock)))
    (called (SetConnectionsHidden newBlock false)
       (called (Render newBlock) (with_graph (λ _, g') s))).

(** Two sessions that differ at most in the graph and in the calls made. *)
Definition unchanged {Tree Cat} (s s' : @Session Tree Cat) : Prop :=
  cursor_ s' = cursor_ s ∧ marker_ s' = marker_ s ∧
  currentCategory_ s' = currentCategory_ s ∧ flyoutBlock_ s' = flyoutBlock_ s ∧
  currentState_ s' = currentState_ s ∧
  keyboardAccessibilityMode s' = keyboardAccessibilityMode s ∧
  selected s' = selected s ∧ hasToolbox s' = hasToolbox s ∧
  tree_ s' = tree_ s ∧ flyout s' = flyout s.

(** ** Keeping the cursor valid when blocks change *)

(** Modelled from the spec: [Block.prototype.getChildren], the blocks whose
    parent is [b]. *)
Definition getChildren (g : Graph) (b : BlockId) : list BlockId :=
  filter (λ c, getParent g c = Some b) (seq 0 (length (blocks g))).

(** Modelled from the spec: [Block.prototype.getRelativeToSurfaceXY], the
    position of the block. *)
Definition getRelativeToSurfaceXY (g : Graph) (b : BlockId) : Coordinate :=
  b_xy (theBlock g b).

Section CursorUpkeep.

Context {Tree Cat : Type}.

(** [Blockly.Field.prototype.getSourceBlock]: the block a field sits on. *)
Variable fieldSourceBlock : FieldId → BlockId.

Notation "'let!' x := m 'in' k" := (bind (Tree:=Tree) (Cat:=Cat) m (λ x, k))
  (at level 10, x name, m at level 100, k at level 200).

(** [getSourceBlock_]; [None] stands for null. *)
Definition getSourceBlock_ (g : Graph) (node : option ASTNode) : option BlockId :=
  match node with
  | None => None
  | Some (BlockNode b) => Some b
  | Some (WorkspaceNode _) | Some (StackNode _) => None
  | Some (FieldNode f) => Some (fieldSourceBlock f)
  | Some (ConnectionNode _ c) => Some (getSourceBlock g c)
  end.

Definition moveCursorOnBlockDelete (deletedBlock : BlockId) : M unit :=
  let! s := get in
  let g := graph s in
  let curNode := getCurNode (cursor_ s) in
  match getSourceBlock_ g curNode with
  | Some block =>
      if bool_decide (block = deletedBlock) then
        match getParent g block with
        | Some _ =>
            match topConnection g block with
            | Some topConnection =>
                (* createConnectionNode of a null connection is null *)
                update (with_cursor
                          (setLocation (createConnectionNode g
                                          <$> targetConnection g topConnection)))
            | None => ret tt
            end
        | None =>
            update (with_cursor
                      (setLocation (Some (createWorkspaceNode
                                            (getRelativeToSurfaceXY g block)))))
        end
      else if bool_decide (block ∈ getChildren g deletedBlock) then
        update (with_cursor
                  (setLocation (Some (createWorkspaceNode
                                        (getRelativeToSurfaceXY g block)))))
      else ret tt
  | None => ret tt
  end.

Definition moveCursorOnBlockMutation (mutatedBlock : BlockId) : M unit :=
  let! s := get in
  let curNode := getCurNode (cursor_ s) in
  match getSourceBlock_ (graph s) curNode with
  | Some block =>
      if bool_decide (block = mutatedBlock)
      then update (with_cursor (setLocation (Some (createBlockNode block))))
      else ret tt
  | None => ret tt
  end.

End CursorUpkeep.

(** ** Further statements *)

(** The action names each context handles ([workspaceOnAction_],
    [flyoutOnAction_], [toolboxOnAction_]). *)
Definition actionsOf (st : NavState) : list string :=
  match st with
  | STATE_WS => [PREVIOUS_; OUT_; NEXT_; IN_; INSERT_; MARK_; DISCONNECT_; TOOLBOX_]
  | STATE_FLYOUT => [PREVIOUS_; OUT_; NEXT_; MARK_; EXIT_]
  | STATE_TOOLBOX => [PREVIOUS_; OUT_; NEXT_; IN_; EXIT_]
  end.

(** A marker that can serve as anchor: it holds nothing, a connection or a
    workspace location. *)
Definition markable (n : option ASTNode) : Prop :=
  match n with
  | None => True
  | Some n => isConnection n = true ∨ getType n = WORKSPACE
  end.

(** The editor with focus on a flyout that lists the blocks 2, 4 and 3,
    with [sel] selected. *)
Definition paletteSession (sel : option BlockId) : @Session unit nat :=
  mkSession g0 (mkCursor None true) (mkCursor None true) None sel STATE_FLYOUT true
            None false tt (Some (mkFlyout true (Some [2; 4; 3]))) [].

(** The editor with a toolbox that has the focus. *)
Definition toolboxSession : @Session unit nat :=
  mkSession g0 (mkCursor None true) (mkCursor None true) (Some 0) None STATE_TOOLBOX true
            None true tt (Some (mkFlyout false (Some [2]))) [].

(** ** Properties of the graph primitives *)

Lemma targetConnection_setTarget g c t x :
  targetConnection (setTarget g c t) x =
    if decide (x = c ∧ c < length (conns g)) then t else targetConnection g x.
Proof.
  unfold targetConnection, theConn, setTarget. simpl.
  destruct (decide (x = c)) as [->|Hne].
  - rewrite list_lookup_alter_eq.
    destruct (_ !! _) eqn:Hl; simpl.
    + apply lookup_lt_Some in Hl. rewrite decide_True; [done|by split].
    + apply lookup_ge_None in Hl. rewrite decide_False; [done|lia].
  - rewrite list_lookup_alter_ne by done. rewrite decide_False; [done|tauto].
Qed.

Lemma targetConnection_in_range g c t :
  targetConnection g c = Some t → c < length (conns g).
Proof.
  unfold targetConnection, theConn. intros Ht.
  destruct (_ !! _) eqn:Hl; [by eapply lookup_lt_Some|done].
Qed.

Lemma theConn_setTarget_static g c t x :
  c_type (theConn (setTarget g c t) x) = c_type (theConn g x) ∧
  c_sourceBlock (theConn (setTarget g c t) x) = c_sourceBlock (theConn g x).
Proof.
  unfold theConn, setTarget. simpl.
  destruct (decide (x = c)) as [->|Hne].
  - rewrite list_lookup_alter_eq. by destruct (_ !! _).
  - by rewrite list_lookup_alter_ne.
Qed.

Lemma connType_setTarget g c t x : connType (setTarget g c t) x = connType g x.
Proof. apply theConn_setTarget_static. Qed.

Lemma getSourceBlock_setTarget g c t x :
  getSourceBlock (setTarget g c t) x = getSourceBlock g x.
Proof. apply theConn_setTarget_static. Qed.

Lemma blocks_disconnect g c : blocks (disconnect g c) = blocks g.
Proof. unfold disconnect. by destruct (targetConnection g c). Qed.

Lemma connType_disconnect g c x : connType (disconnect g c) x = connType g x.
Proof.
  unfold disconnect. destruct (targetConnection g c); [|done].
  by rewrite !connType_setTarget.
Qed.

Lemma getSourceBlock_disconnect g c x :
  getSourceBlock (disconnect g c) x = getSourceBlock g x.
Proof.
  unfold disconnect. destruct (targetConnection g c); [|done].
  by rewrite !getSourceBlock_setTarget.
Qed.

Lemma length_conns_setTarget g c t : length (conns (setTarget g c t)) = length (conns g).
Proof. unfold setTarget. simpl. apply length_alter. Qed.

(** Severing only clears targets. *)
Lemma targetConnection_disconnect g c x :
  targetConnection (disconnect g c) x = None ∨
  targetConnection (disconnect g c) x = targetConnection g x.
Proof.
  unfold disconnect. destruct (targetConnection g c) as [t|] eqn:Ht; [|by right].
  rewrite !targetConnection_setTarget. repeat case_decide; auto.
Qed.

(** Severing a joined connection clears its own target. *)
Lemma targetConnection_disconnect_eq g c : targetConnection (disconnect g c) c = None.
Proof.
  unfold disconnect. destruct (targetConnection g c) as [t|] eqn:Ht; [|done].
  apply targetConnection_in_range in Ht as Hc.
  rewrite !targetConnection_setTarget, length_conns_setTarget.
  repeat case_decide; try done. tauto.
Qed.

(** In a graph with mutual joins, severing clears the other end too. *)
Lemma targetConnection_disconnect_target g c t :
  mutual g → targetConnection g c = Some t →
  targetConnection (disconnect g c) t = None.
Proof.
  intros Hmut Ht. unfold disconnect. rewrite Ht.
  apply Hmut in Ht as Hback. apply targetConnection_in_range in Hback.
  rewrite !targetConnection_setTarget, length_conns_setTarget.
  rewrite decide_True; [done|tauto].
Qed.

(** *** Parent chains *)

Lemma parent_of_functional g x p q : parent_of g x p → parent_of g x q → p = q.
Proof. unfold parent_of. congruence. Qed.

Lemma theBlock_in_range g b : theBlock g b ≠ noBlock → b < length (blocks g).
Proof.
  unfold theBlock. intros Hne.
  destruct (_ !! _) eqn:Hl; [by eapply lookup_lt_Some|done].
Qed.

Lemma topConnection_in_range g b c : topConnection g b = Some c → b < length (blocks g).
Proof.
  unfold topConnection, previousConnection, outputConnection. intros Ht.
  apply theBlock_in_range. intros Heq. rewrite Heq in Ht. done.
Qed.

Lemma parent_in_range g x p :
  valid g → getParent g x = Some p → x < length (blocks g) ∧ p < length (blocks g).
Proof.
  intros [_ Hsrc]. unfold getParent.
  destruct (topConnection g x) as [c|] eqn:Htop; [|done].
  apply topConnection_in_range in Htop.
  destruct (targetConnection g c) as [t|]; [|done]. intros [= <-].
  split; [done|]. unfold getSourceBlock, theConn.
  destruct (_ !! _) eqn:Hl; simpl; [by eapply Hsrc|lia].
Qed.

Lemma ancestors_elem_rtc g k x y : y ∈ ancestors g k x → rtc (parent_of g) x y.
Proof.
  revert x. induction k as [|k IH]; intros x; simpl.
  - intros ->%list_elem_of_singleton. done.
  - destruct (getParent g x) as [p|] eqn:Hp.
    + intros [->|Hin]%elem_of_cons; [done|].
      eapply rtc_l; [exact Hp|by apply IH].
    + intros ->%list_elem_of_singleton. done.
Qed.

Lemma ancestors_lookup g n k x y :
  nsteps (parent_of g) n x y → n ≤ k → ancestors g k x !! n = Some y.
Proof.
  intros Hsteps. revert k. induction Hsteps as [x|n x p y Hp _ IH]; intros k Hk.
  - by destruct k.
  - destruct k as [|k]; [lia|]. simpl. rewrite Hp. apply IH. lia.
Qed.

Lemma ancestors_NoDup g k x : acyclic g → NoDup (ancestors g k x).
Proof.
  intros Hacy. revert x. induction k as [|k IH]; intros x; simpl.
  - apply NoDup_singleton.
  - destruct (getParent g x) as [p|] eqn:Hp; [|apply NoDup_singleton].
    apply NoDup_cons. split; [|apply IH].
    intros Hin%ancestors_elem_rtc. apply (Hacy x).
    eapply tc_rtc_r; [apply tc_once; exact Hp|exact Hin].
Qed.

Lemma ancestors_bound g k x p y :
  valid g → getParent g x = Some p → y ∈ ancestors g k x → y < length (blocks g).
Proof.
  intros Hv. revert x p. induction k as [|k IH]; intros x p Hp; simpl;
    destruct (parent_in_range g x p Hv Hp) as [Hx Hpar].
  - by intros ->%list_elem_of_singleton.
  - rewrite Hp. intros [->|Hin]%elem_of_cons; [done|].
    destruct (getParent g p) as [q|] eqn:Hq; [by eapply IH|].
    destruct k; simpl in Hin; rewrite ?Hq in Hin;
      by apply list_elem_of_singleton in Hin as ->.
Qed.

(** A parent chain visits each block at most once, so it is shorter than
    the number of blocks. *)
Lemma steps_bound g n x y :
  acyclic g → valid g → nsteps (parent_of g) (S n) x y → S n < length (blocks g).
Proof.
  intros Hacy Hv Hsteps.
  assert (Hlen : S (S n) ≤ length (ancestors g (S n) x)).
  { apply (ancestors_lookup g (S n) (S n)) in Hsteps; [|done].
    apply lookup_lt_Some in Hsteps. lia. }
  assert (Hle : length (ancestors g (S n) x) ≤ length (seq 0 (length (blocks g)))).
  { apply submseteq_length, NoDup_submseteq; [by apply ancestors_NoDup|].
    intros z Hz. apply elem_of_seq.
    inversion Hsteps as [|? ? p ? Hp]; subst.
    split; [lia|]. simpl. by eapply ancestors_bound. }
  rewrite length_seq in Hle. lia.
Qed.

(** With as many links as there are blocks, the chain is complete. *)
Lemma ancestors_complete g x y :
  acyclic g → valid g → rtc (parent_of g) x y → y ∈ ancestors g (length (blocks g)) x.
Proof.
  intros Hacy Hv [n Hsteps]%rtc_nsteps_1.
  apply list_elem_of_lookup. exists n. apply ancestors_lookup; [done|].
  destruct n as [|n]; [lia|]. apply steps_bound in Hsteps; [lia|done..].
Qed.

Lemma rootFrom_rtc g k x : rtc (parent_of g) x (rootFrom g k x).
Proof.
  revert x. induction k as [|k IH]; intros x; simpl.
  - by destruct (getParent g x).
  - destruct (getParent g x) as [p|] eqn:Hp; [|done].
    eapply rtc_l; [exact Hp|apply IH].
Qed.

Lemma rootFrom_steps g k x p :
  getParent g (rootFrom g k x) = Some p → nsteps (parent_of g) (S k) x p.
Proof.
  revert x. induction k as [|k IH]; intros x; simpl.
  - destruct (getParent g x) eqn:Hp; intros Hr.
    + apply nsteps_once. congruence.
    + congruence.
  - destruct (getParent g x) as [q|] eqn:Hp; intros Hr.
    + eapply nsteps_l; [exact Hp|by apply IH].
    + congruence.
Qed.

(** In a graph without cycle [getRootBlock] ends at a block without
    parent: the cut of the loop is never reached. *)
Lemma rootFrom_is_root g x :
  acyclic g → valid g → getParent g (getRootBlock g x) = None.
Proof.
  intros Hacy Hv. unfold getRootBlock.
  destruct (getParent g (rootFrom g _ x)) as [p|] eqn:Hp; [|done].
  apply rootFrom_steps, steps_bound in Hp; [lia|done..].
Qed.

Lemma rtc_root_unique g x r1 r2 :
  rtc (parent_of g) x r1 → rtc (parent_of g) x r2 →
  getParent g r1 = None → getParent g r2 = None → r1 = r2.
Proof.
  intros H1. revert r2. induction H1 as [x|x y r1 Hxy _ IH]; intros r2 H2 Hr1 Hr2.
  - destruct H2 as [|x y r2 Hxy _]; [done|]. unfold parent_of in Hxy. congruence.
  - destruct H2 as [|x y' r2 Hxy' H2]; [unfold parent_of in Hxy; congruence|].
    rewrite (parent_of_functional _ _ _ _ Hxy Hxy') in *. by apply IH.
Qed.

Lemma getRootBlock_rtc g x y :
  acyclic g → valid g → rtc (parent_of g) x y → getRootBlock g x = getRootBlock g y.
Proof.
  intros Hacy Hv Hxy.
  apply (rtc_root_unique g x); [apply rootFrom_rtc| |by apply rootFrom_is_root..].
  etrans; [exact Hxy|apply rootFrom_rtc].
Qed.

(** Membership in [getDescendants]. *)
Lemma elem_of_getDescendants g a d :
  d ∈ getDescendants g a ↔
  d < length (blocks g) ∧ a ∈ ancestors g (length (blocks g)) d.
Proof.
  unfold getDescendants. rewrite list_elem_of_filter, elem_of_seq.
  split; [intros [? [_ ?]]|intros [? ?]]; (split; [done||lia|done||lia]).
Qed.

Lemma getDescendants_sound g a d : d ∈ getDescendants g a → rtc (parent_of g) d a.
Proof. intros [_ Hin]%elem_of_getDescendants. by eapply ancestors_elem_rtc. Qed.

Lemma getDescendants_complete g a d :
  acyclic g → valid g → rtc (parent_of g) d a → d ≠ a → d ∈ getDescendants g a.
Proof.
  intros Hacy Hv Hrtc Hne. apply elem_of_getDescendants. split.
  - destruct Hrtc as [|d p a Hp _]; [done|]. by eapply proj1, parent_in_range.
  - by apply ancestors_complete.
Qed.

(** *** Well-founded parent chains *)

Lemma sn_rootFrom g k x : getParent g (rootFrom g k x) = None → sn (parent_of g) x.
Proof.
  revert x. induction k as [|k IH]; intros x; simpl.
  - destruct (getParent g x) eqn:Hp; intros Hr; [congruence|].
    constructor. intros y Hy. unfold flip, parent_of in Hy. congruence.
  - destruct (getParent g x) as [p|] eqn:Hp; intros Hr.
    + constructor. intros y Hy. unfold flip, parent_of in Hy.
      assert (y = p) as -> by congruence. by apply IH.
    + constructor. intros y Hy. unfold flip, parent_of in Hy. congruence.
Qed.

Lemma sn_of_acyclic g : acyclic g → valid g → ∀ x, sn (parent_of g) x.
Proof.
  intros Hacy Hv x. apply (sn_rootFrom g (length (blocks g))).
  by apply rootFrom_is_root.
Qed.

Lemma sn_no_cycle {A} (R : relation A) x : sn R x → ¬ tc R x x.
Proof.
  induction 1 as [x _ IH]. intros Hcyc.
  inversion Hcyc as [? ? Hxx|? y ? Hxy Hyx]; subst.
  - by apply (IH x).
  - apply (IH y); [done|]. by eapply tc_r.
Qed.

Lemma acyclic_of_sn g : (∀ x, sn (parent_of g) x) → acyclic g.
Proof. intros Hsn b. by apply sn_no_cycle. Qed.

(** The check [acyclicb] is sound. *)
Lemma acyclicb_acyclic g : acyclicb g = true → acyclic g.
Proof.
  unfold acyclicb. rewrite forallb_forall. intros Hall.
  apply acyclic_of_sn. intros x.
  destruct (decide (x < length (blocks g))) as [Hlt|Hge].
  - apply (sn_rootFrom g (length (blocks g))).
    assert (Hin : In x (seq 0 (length (blocks g)))) by (apply in_seq; lia).
    apply Hall in Hin. by apply bool_decide_eq_true in Hin.
  - constructor. intros y Hy. unfold flip, parent_of, getParent in Hy.
    destruct (topConnection g x) eqn:Htop; [|done].
    apply topConnection_in_range in Htop. lia.
Qed.

Lemma sn_subrelation {A} (R R' : relation A) x :
  (∀ a b, R' a b → R a b) → sn R x → sn R' x.
Proof.
  intros Hsub. induction 1 as [x _ IH]. constructor. intros y Hy. apply IH, Hsub, Hy.
Qed.

(** Adding one edge from [c] to [p] to a well-founded relation keeps it
    well founded when [c] is not reachable from [p]. *)
Lemma sn_graft {A} (R R' : relation A) (c p : A) :
  (∀ x, sn R x) →
  (∀ x y, R' x y → R x y ∨ (x = c ∧ y = p)) →
  ¬ rtc R p c →
  ∀ x, sn R' x.
Proof.
  intros Hsn Hedge Hnot.
  assert (Hfar : ∀ x, ¬ rtc R x c → sn R' x).
  { intros x. induction (Hsn x) as [x _ IH]. intros Hx.
    constructor. intros y Hy. destruct (Hedge _ _ Hy) as [HR|[-> _]].
    - apply IH; [done|]. intros Hyc. apply Hx. by eapply rtc_l.
    - by destruct Hx. }
  intros x. induction (Hsn x) as [x _ IH].
  constructor. intros y Hy. destruct (Hedge _ _ Hy) as [HR|[-> ->]].
  - by apply IH.
  - by apply Hfar.
Qed.

(** *** Parents after severing and joining *)

Lemma theBlock_setTarget g c t b : theBlock (setTarget g c t) b = theBlock g b.
Proof. done. Qed.

Lemma topConnection_setTarget g c t b :
  topConnection (setTarget g c t) b = topConnection g b.
Proof. done. Qed.

Lemma topConnection_disconnect g c b : topConnection (disconnect g c) b = topConnection g b.
Proof. unfold disconnect. by destruct (targetConnection g c). Qed.

Lemma topConnection_connectTo g b a x :
  topConnection (connectTo g b a) x = topConnection g x.
Proof.
  unfold connectTo. by rewrite !topConnection_setTarget, !topConnection_disconnect.
Qed.

Lemma getSourceBlock_connectTo g b a x :
  getSourceBlock (connectTo g b a) x = getSourceBlock g x.
Proof.
  unfold connectTo. by rewrite !getSourceBlock_setTarget, !getSourceBlock_disconnect.
Qed.

Lemma connType_connectTo g b a x : connType (connectTo g b a) x = connType g x.
Proof.
  unfold connectTo. by rewrite !connType_setTarget, !connType_disconnect.
Qed.

(** Severing removes parent links and adds none. *)
Lemma getParent_disconnect g c x p :
  getParent (disconnect g c) x = Some p → getParent g x = Some p.
Proof.
  unfold getParent. rewrite topConnection_disconnect.
  destruct (topConnection g x) as [top|]; [|done].
  destruct (targetConnection_disconnect g c top) as [->| ->]; [done|].
  destruct (targetConnection g top); [|done]. by rewrite getSourceBlock_disconnect.
Qed.

(** Severing the top connection of a block leaves it without parent. *)
Lemma getParent_disconnect_top g c x :
  topConnection g x = Some c → getParent (disconnect g c) x = None.
Proof.
  intros Htop. unfold getParent. rewrite topConnection_disconnect, Htop.
  by rewrite targetConnection_disconnect_eq.
Qed.

Lemma targetConnection_connectTo g b a c t :
  targetConnection (connectTo g b a) c = Some t →
  targetConnection g c = Some t ∨ (c = b ∧ t = a) ∨ (c = a ∧ t = b).
Proof.
  unfold connectTo. rewrite !targetConnection_setTarget.
  case_decide as H1; [intros [= <-]; right; right; tauto|].
  case_decide as H2; [intros [= <-]; right; left; tauto|].
  intros Ht. left.
  destruct (targetConnection_disconnect (disconnect g a) b c) as [Hn|He];
    [congruence|rewrite He in Ht].
  destruct (targetConnection_disconnect g a c) as [Hn|He']; congruence.
Qed.

(** Joining adds at most the parent link through the joined connections. *)
Lemma getParent_connectTo g b a x p :
  getParent (connectTo g b a) x = Some p →
  getParent g x = Some p ∨
  (topConnection g x = Some a ∧ p = getSourceBlock g b) ∨
  (topConnection g x = Some b ∧ p = getSourceBlock g a).
Proof.
  unfold getParent. rewrite topConnection_connectTo.
  destruct (topConnection g x) as [top|]; [|done].
  destruct (targetConnection (connectTo g b a) top) as [t|] eqn:Ht; [|done].
  rewrite getSourceBlock_connectTo. intros [= <-].
  apply targetConnection_connectTo in Ht as [->|[[-> ->]|[-> ->]]]; auto.
Qed.

(** The shape of the references does not depend on the joins. *)
Lemma valid_setTarget g c t : valid g → valid (setTarget g c t).
Proof.
  intros [Htop Hsrc]. split.
  - intros b k. rewrite topConnection_setTarget, getSourceBlock_setTarget, connType_setTarget.
    apply Htop.
  - intros k conn. unfold setTarget. simpl.
    destruct (decide (k = c)) as [->|Hne].
    + rewrite list_lookup_alter_eq. destruct (_ !! _) eqn:Hl; [|done].
      intros [= <-]. simpl. by eapply Hsrc.
    + rewrite list_lookup_alter_ne by done. apply Hsrc.
Qed.

Lemma valid_disconnect g c : valid g → valid (disconnect g c).
Proof.
  intros Hv. unfold disconnect. destruct (targetConnection g c); [|done].
  by do 2 apply valid_setTarget.
Qed.

Lemma valid_connectTo g b a : valid g → valid (connectTo g b a).
Proof.
  intros Hv. unfold connectTo. by do 2 apply valid_setTarget; do 2 apply valid_disconnect.
Qed.

(** ** Properties of the navigation functions *)

Section Properties.

Context {Tree Cat : Type} `{EqDecision Cat}.
Variable E : @Env Tree Cat.

Abbreviation Session := (@Session Tree Cat).

Ltac unfold_monad :=
  unfold handled, when, warn, log, reported, update, get, throw, ret, bind in *.

(** *** Rejections of [modify] *)

(** C3.  When the marker or the cursor holds no location, or the marker is
    a field, block or stack location, or the cursor is a field or workspace
    location, [modify] returns false after one warning, and the session is
    otherwise as it was: the graph has the same connections, joins and block
    positions, and no call reached the rendering layer. *)
Theorem modify_rejects (s : Session) :
  rejected_pair (getCurNode (marker_ s)) (getCurNode (cursor_ s)) →
  ∃ msg, modify E s = Ret false (reported WARN msg s) ∧
         graph (reported WARN msg s) = graph s.
Proof.
  intros Hrej. unfold modify. unfold_monad.
  destruct (getCurNode (marker_ s)) as [m|] eqn:Hm; [|eauto].
  destruct (getCurNode (cursor_ s)) as [c|] eqn:Hc; [|eauto].
  destruct Hrej as [?|[?|[(m' & [= <-] & Hk)|(c' & [= <-] & Hk)]]]; try discriminate.
  - destruct m as [| | | |[]]; simpl in *;
      try (destruct Hk as [?|[?|?]]; discriminate); eauto.
  - destruct m as [| | | |[]]; destruct c as [| | | |[]]; simpl in *;
      try (destruct Hk as [?|?]; discriminate); eauto.
Qed.

(** *** Dropping on the workspace *)

(** C6.  With the marker on a workspace location and the cursor on a
    connection, block or stack: a cursor on an input or next connection is
    turned down with a warning; otherwise the block of the cursor is taken,
    a shadow block is turned down with a warning, and any other block is
    detached from its parent when it has one, moved to the marker's
    coordinate, and [modify] returns true. *)
Theorem modify_to_workspace (s : Session) (xy : Coordinate) (c : ASTNode) :
  getCurNode (marker_ s) = Some (WorkspaceNode xy) →
  getCurNode (cursor_ s) = Some c →
  isConnection c = true ∨ getType c = BLOCK ∨ getType c = STACK →
  modify E s =
    if bool_decide (getType c = INPUT ∨ getType c = NEXT) then
      Ret false
        (reported WARN "Cannot move a next or input connection to the workspace." s)
    else if isShadow (graph s) (blockOf (graph s) c) then
      Ret false (reported WARN "Cannot move a shadow block to the workspace." s)
    else
      Ret true (with_graph (λ g, dropped g (blockOf g c) xy) s).
Proof.
  intros Hm Hc Hkind. unfold modify. unfold_monad. rewrite Hm, Hc. simpl.
  assert (Hdrop : ∀ b, moveToWorkspace b xy s =
            if isShadow (graph s) b
            then Ret false (reported WARN "Cannot move a shadow block to the workspace." s)
            else Ret true (with_graph (λ g, dropped g b xy) s)).
  { intros b. unfold moveToWorkspace, dropped. unfold_monad.
    destruct (isShadow (graph s) b); [done|].
    destruct (getParent (graph s) b) eqn:Hp; unfold with_graph; simpl; by rewrite Hp. }
  destruct c as [f|b|b|w|role k]; simpl in *;
    try (destruct Hkind as [?|[?|?]]; discriminate).
  - apply Hdrop.
  - apply Hdrop.
  - destruct role; simpl; try apply Hdrop; done.
Qed.

(** *** Disconnecting *)

(** C7.  The claim has [disconnectBlocks] do nothing but log whenever the
    cursor location is not a connection, and the comment above the function
    says the same; but with a cursor that holds no location the function
    calls [isConnection] on null and throws, with nothing logged and the
    session as it was. *)
Theorem disconnectBlocks_without_location (s : Session) :
  getCurNode (cursor_ s) = None →
  disconnectBlocks E s = Throw TypeError s ∧
  (currentState_ s = STATE_WS → onBlocklyAction E DISCONNECT_ s = Throw TypeError s).
Proof.
  intros Hcur.
  assert (Hthrow : disconnectBlocks E s = Throw TypeError s).
  { unfold disconnectBlocks. unfold bind at 1. unfold get at 1. cbv beta iota.
    by rewrite Hcur. }
  split; [exact Hthrow|]. intros Hst.
  unfold onBlocklyAction. unfold bind at 1. unfold get at 1. cbv beta iota.
  rewrite Hst.
  change (workspaceOnAction_ E DISCONNECT_ s) with (handled (disconnectBlocks E) s).
  unfold handled, bind. by rewrite Hthrow.
Qed.

(** X16.  With the cursor on a location: [disconnectBlocks] only logs when
    the location is not a connection, when the connection is not joined, and
    when the source block of the inferior side of the join is a shadow
    block.  Otherwise it severs the join at its superior connection, bumps
    the inferior connection away from the superior one, brings the root
    block of the superior side to the front and puts the cursor on the
    superior connection; in a graph with mutual joins both ends are then
    free. *)
Theorem disconnectBlocks_cases (s : Session) (n : ASTNode) :
  getCurNode (cursor_ s) = Some n →
  disconnectBlocks E s =
    match n with
    | ConnectionNode _ c =>
        match targetConnection (graph s) c with
        | None => Ret tt (reported LOG "Cannot disconnect unconnected connection" s)
        | Some t =>
            let superior := if isSuperior E (connType (graph s) c) then c else t in
            let inferior := if isSuperior E (connType (graph s) c) then t else c in
            if isShadow (graph s) (getSourceBlock (graph s) inferior)
            then Ret tt (reported LOG "Cannot disconnect a shadow block" s)
            else Ret tt (severed s superior inferior)
        end
    | _ => Ret tt (reported LOG
                     "Cannot disconnect blocks when the cursor is not on a connection" s)
    end
  ∧ ∀ role c t,
      n = ConnectionNode role c → targetConnection (graph s) c = Some t →
      mutual (graph s) →
      let superior := if isSuperior E (connType (graph s) c) then c else t in
      let inferior := if isSuperior E (connType (graph s) c) then t else c in
      targetConnection (graph (severed s superior inferior)) superior = None ∧
      targetConnection (graph (severed s superior inferior)) inferior = None ∧
      getCurNode (cursor_ (severed s superior inferior))
        = Some (ConnectionNode (connType (graph s) superior) superior).
Proof.
  intros Hn. split.
  - unfold disconnectBlocks. unfold_monad. rewrite Hn.
    destruct n as [f|b|b|w|role c]; try done.
    destruct (targetConnection (graph s) c) as [t|]; [|done].
    simpl. by destruct (isShadow _ _).
  - intros role c t -> Ht Hmut. simpl.
    unfold severed, createConnectionNode. simpl.
    rewrite connType_disconnect.
    destruct (isSuperior E (connType (graph s) c)).
    + split_and!; [apply targetConnection_disconnect_eq| |done].
      by apply targetConnection_disconnect_target.
    + apply Hmut in Ht as Hback.
      split_and!; [apply targetConnection_disconnect_eq| |done].
      by apply targetConnection_disconnect_target.
Qed.

(** *** Entering the toolbox and the flyout *)

(** C10.  [focusToolbox] and [focusFlyout] leave a marker that holds a
    location where it is, and put a marker that holds none on the location
    the cursor holds on entry; this is so whether or not the call runs to
    its end. *)
Theorem focus_sets_marker (s : Session) :
  let expected :=
    match getCurNode (marker_ s) with
    | Some m => Some m
    | None => getCurNode (cursor_ s)
    end in
  getCurNode (marker_ (after (focusToolbox E s))) = expected ∧
  getCurNode (marker_ (after (focusFlyout s))) = expected.
Proof.
  simpl. split.
  - unfold focusToolbox, resetFlyout, markAtCursor. unfold_monad. simpl.
    destruct (getCurNode (marker_ s)) as [m|] eqn:Hm; simpl;
      destruct (currentCategory_ s); simpl;
      destruct (hasToolbox s); simpl; try done.
  - unfold focusFlyout, markAtCursor. unfold_monad. simpl.
    destruct (getCurNode (marker_ s)) as [m|] eqn:Hm; simpl;
      destruct (flyout s) as [[v [[|b l]|]]|]; simpl; try done.
Qed.

(** *** The search for a compatible pair *)

Lemma getInferiorConnection_counterpart g c :
  getInferiorConnection_ E g c = inferior_counterpart E g c.
Proof.
  unfold getInferiorConnection_, inferior_counterpart, topConnection.
  destruct (isSuperior E (connType g c)); simpl; [|done].
  destruct (previousConnection g _); [done|]. by destruct (outputConnection g _).
Qed.

Lemma getSuperiorConnection_counterpart g c :
  getSuperiorConnection_ E g c = superior_counterpart E g c.
Proof.
  unfold getSuperiorConnection_, superior_counterpart.
  destruct (isSuperior E (connType g c)); [done|]. by destruct (targetConnection g c).
Qed.

(** What [join] does, case by case. *)
Lemma join_cases a b (s : Session) :
  join E a b s =
    if share_root (graph s) a b then
      match getInferiorConnection_ E (graph s) (descendant_side (graph s) a b) with
      | Some x => Ret true (joined E s a b (Some x))
      | None => Throw TypeError s
      end
    else Ret true (joined E s a b None).
Proof.
  unfold join, disconnectChild_, disconnect_, share_root, descendant_side, joined.
  unfold_monad. simpl.
  case_bool_decide; simpl.
  - case_bool_decide; simpl;
      (destruct (getInferiorConnection_ E (graph s) _) as [x|]; simpl; [|done]);
      by destruct (isSuperior E _).
  - by destruct (isSuperior E _).
Qed.

(** [join] returns true or throws. *)
Lemma join_outcome a b (s : Session) :
  (∃ s', join E a b s = Ret true s') ∨ (∃ e s', join E a b s = Throw e s').
Proof.
  rewrite join_cases. repeat case_match; eauto.
Qed.

Lemma join_then a b (s : Session) {A} (k : bool → M A) :
  bind (join E a b) k s = bind (join E a b) (λ _, k true) s.
Proof.
  unfold bind. destruct (join_outcome a b s) as [[s' ->]|(e & s' & ->)]; done.
Qed.

(** An attempt on a pair that does not pass leaves the session alone; on a
    pair that passes it is the join. *)
Lemma moveAndConnect_compatible a b (s : Session) :
  moveAndConnect_ E a b s =
    match a, b with
    | Some a', Some b' =>
        if compatible E (graph s) (a, b) then join E a' b' s else Ret false s
    | _, _ => Ret false s
    end.
Proof.
  unfold moveAndConnect_, compatible. unfold_monad.
  destruct a, b; try done. by case_bool_decide.
Qed.

Lemma moveAndConnect_incompatible a b (s : Session) :
  compatible E (graph s) (a, b) = false → moveAndConnect_ E a b s = Ret false s.
Proof.
  intros Hc. rewrite moveAndConnect_compatible.
  destruct a, b; try done. by rewrite Hc.
Qed.

Lemma join_joins a b (s s' : Session) r :
  a < length (conns (graph s)) → b < length (conns (graph s)) →
  join E a b s = Ret r s' →
  r = true ∧
  targetConnection (graph s') a = Some b ∧ targetConnection (graph s') b = Some a.
Proof.
  intros Ha Hb. rewrite join_cases.
  assert (Hl : ∀ g' c, length (conns (disconnect g' c)) = length (conns g')).
  { intros g' c. unfold disconnect. destruct (targetConnection g' c); [|done].
    by rewrite !length_conns_setTarget. }
  assert (Hset : ∀ g, length (conns g) = length (conns (graph s)) →
            targetConnection (connectTo g b a) a = Some b ∧
            targetConnection (connectTo g b a) b = Some a).
  { intros g Hlen. unfold connectTo. split.
    - rewrite targetConnection_setTarget, !length_conns_setTarget, !Hl, Hlen.
      by rewrite decide_True.
    - rewrite targetConnection_setTarget.
      case_decide as Hba; [by destruct Hba as [-> _]|].
      rewrite targetConnection_setTarget, !Hl, Hlen. by rewrite decide_True. }
  assert (Hj : ∀ x, targetConnection (graph (joined E s a b x)) a = Some b ∧
                    targetConnection (graph (joined E s a b x)) b = Some a).
  { intros x. unfold joined.
    destruct (isSuperior E _); simpl; apply Hset; destruct x; by rewrite ?Hl. }
  repeat case_match; intros [= <- <-]; split; auto.
Qed.

(** One step of the chain of attempts in [connect]. *)
Lemma try_given (a b : option ConnId) (k : M bool) (s : Session) :
  bind (moveAndConnect_ E a b) (λ r, if r then ret true else k) s =
    match a, b with
    | Some a', Some b' =>
        if compatible E (graph s) (a, b) then join E a' b' s else k s
    | _, _ => k s
    end.
Proof.
  unfold bind at 1. rewrite moveAndConnect_compatible.
  destruct a as [a'|], b as [b'|]; try done.
  destruct (compatible E (graph s) _); [|done].
  by destruct (join_outcome a' b' s) as [[s' ->]|(e & s' & ->)].
Qed.

Lemma try_pair (a b : option ConnId) (k : M bool) (s : Session) :
  bind (match a, b with
        | Some _, Some _ => moveAndConnect_ E a b
        | _, _ => ret false
        end) (λ r, if r then ret true else k) s =
    match a, b with
    | Some a', Some b' =>
        if compatible E (graph s) (a, b) then join E a' b' s else k s
    | _, _ => k s
    end.
Proof. destruct a as [a'|], b as [b'|]; try done. exact (try_given (Some a') (Some b') k s). Qed.

(** [connect] as a search through the candidate pairs. *)
Lemma connect_find (s : Session) (moving dest : ConnId) :
  connect E (Some moving) (Some dest) s =
    match List.find (compatible E (graph s)) (candidates E (graph s) moving dest) with
    | Some (Some a, Some b) => join E a b s
    | _ => Ret false (after (checkConnection_caught E dest moving s))
    end.
Proof.
  unfold connect, candidates.
  unfold bind at 1. unfold get at 1. cbv beta iota.
  rewrite !getInferiorConnection_counterpart, !getSuperiorConnection_counterpart.
  assert (Hlast : bind (checkConnection_caught E dest moving) (λ _, ret false) s
                  = Ret false (after (checkConnection_caught E dest moving s))).
  { unfold checkConnection_caught. unfold_monad.
    by destruct (canConnectWithReason_ E (graph s) dest moving). }
  etrans; [apply try_pair|]. cbn [List.find].
  destruct (inferior_counterpart E (graph s) moving) as [a1|],
           (superior_counterpart E (graph s) dest) as [b1|];
    try destruct (compatible E (graph s) (Some a1, Some b1)); try reflexivity;
    (etrans; [apply try_pair|];
     destruct (superior_counterpart E (graph s) moving) as [a2|],
              (inferior_counterpart E (graph s) dest) as [b2|];
     try destruct (compatible E (graph s) (Some a2, Some b2)); try reflexivity;
     (etrans; [apply try_given|];
      destruct (compatible E (graph s) (Some moving, Some dest));
      [reflexivity|exact Hlast])).
Qed.

(** C1.  [getInferiorConnection_] and [getSuperiorConnection_] compute the
    inferior and superior counterparts, and [connect] goes through the
    pairs (moving-inferior, dest-superior), (moving-superior,
    dest-inferior), (moving, dest) in this order: the first pair that passes
    the compatibility check is the one handed to the join, from the session
    as it was on entry, so no later pair is tried; when the join returns,
    the two connections of that pair are each other's target.  When no pair
    passes, [connect] returns false. *)
Theorem connect_first_compatible (s : Session) (moving dest : ConnId) :
  (∀ c, getInferiorConnection_ E (graph s) c = inferior_counterpart E (graph s) c ∧
        getSuperiorConnection_ E (graph s) c = superior_counterpart E (graph s) c) ∧
  connect E (Some moving) (Some dest) s =
    match List.find (compatible E (graph s)) (candidates E (graph s) moving dest) with
    | Some (Some a, Some b) => join E a b s
    | _ => Ret false (after (checkConnection_caught E dest moving s))
    end ∧
  (∀ a b r s',
     List.find (compatible E (graph s)) (candidates E (graph s) moving dest)
       = Some (Some a, Some b) →
     a < length (conns (graph s)) → b < length (conns (graph s)) →
     join E a b s = Ret r s' →
     r = true ∧
     targetConnection (graph s') a = Some b ∧ targetConnection (graph s') b = Some a).
Proof.
  split_and!.
  - intros c. split; [apply getInferiorConnection_counterpart
                     |apply getSuperiorConnection_counterpart].
  - apply connect_find.
  - intros a b r s' _. apply join_joins.
Qed.

(** C4.  When none of the three candidate pairs passes the check, [connect]
    reports the reason that the compatibility check gives for the original
    pair, returns false, and leaves the session as it was but for that
    report.  And whenever [connect] returns false the graph is the graph on
    entry: nothing was severed, joined or moved. *)
Theorem connect_failure (s : Session) (moving dest : ConnId) :
  (Forall (λ p, compatible E (graph s) p = false) (candidates E (graph s) moving dest) →
   ∃ e, canConnectWithReason_ E (graph s) dest moving = REFUSED e ∧
        connect E (Some moving) (Some dest) s =
          Ret false (reported WARN ("Connection failed with error: " +:+ e) s)) ∧
  (∀ s', connect E (Some moving) (Some dest) s = Ret false s' →
         graph s' = graph s ∧
         (calls s' = calls s ∨ ∃ msg, calls s' = calls s ++ [Report WARN msg])).
Proof.
  split.
  - intros Hall. rewrite connect_find.
    unfold candidates in *.
    apply Forall_cons in Hall as [H1 Hall].
    apply Forall_cons in Hall as [H2 Hall].
    apply Forall_cons in Hall as [H3 _].
    cbn [List.find]. rewrite H1, H2, H3.
    unfold compatible in H3. apply bool_decide_eq_false in H3.
    unfold checkConnection_caught. unfold_monad.
    destruct (canConnectWithReason_ E (graph s) dest moving) as [|e]; [done|].
    by exists e.
  - intros s'. rewrite connect_find.
    assert (Hc : ∀ r s1, Ret (Tree:=Tree) (Cat:=Cat) r
                   (after (checkConnection_caught E dest moving s)) = Ret false s1 →
              graph s1 = graph s ∧
              (calls s1 = calls s ∨ ∃ msg, calls s1 = calls s ++ [Report WARN msg])).
    { intros r s1 [= _ <-]. unfold checkConnection_caught. unfold_monad.
      destruct (canConnectWithReason_ E (graph s) dest moving); simpl; eauto. }
    destruct (List.find _ _) as [[[a|] [b|]]|]; try apply Hc.
    destruct (join_outcome a b s) as [[s1 ->]|(e & s1 & ->)]; done.
Qed.

(** *** Inserting a block *)

Lemma leadingConnections_all (inputs : list (option ConnId)) :
  None ∉ inputs → leadingConnections inputs = omap id inputs.
Proof.
  induction inputs as [|[c|] rest IH]; intros Hno.
  - done.
  - cbn [leadingConnections omap list_omap id]. f_equal. apply IH.
    intros Hin. apply Hno. by right.
  - exfalso. apply Hno. by left.
Qed.

(** The loop: the connections of type input read before an input without
    connection are tried in order; when none of them is joined, the loop
    ends with false, or throws at the input without connection. *)
Lemma insertBlock_inputs_find (inputs : list (option ConnId)) (dest : ConnId)
    (s : Session) :
  insertBlock_inputs E inputs dest s =
    match List.find (λ c, compatible E (graph s) (c, Some dest))
            (Some <$> filter (λ c, connType (graph s) c = INPUT_VALUE)
                        (leadingConnections inputs)) with
    | Some (Some a) => join E a dest s
    | _ => if bool_decide (None ∈ inputs) then Throw TypeError s else Ret false s
    end.
Proof.
  induction inputs as [|[c|] rest IH].
  - cbn [insertBlock_inputs leadingConnections]. rewrite filter_nil.
    cbn [fmap list_fmap List.find]. rewrite bool_decide_eq_false_2; [done|].
    apply not_elem_of_nil.
  - cbn [insertBlock_inputs leadingConnections].
    unfold bind at 1. unfold get at 1. cbv beta iota.
    assert (Hin : bool_decide (None ∈ Some c :: rest) = bool_decide (None ∈ rest)).
    { apply bool_decide_ext. rewrite elem_of_cons.
      split; [intros [Heq|Hin]; [discriminate|exact Hin]|by right]. }
    rewrite Hin. rewrite filter_cons.
    destruct (decide (connType (graph s) c = INPUT_VALUE)) as [Hty|Hty].
    + rewrite (bool_decide_eq_true_2 _ Hty). rewrite fmap_cons. cbn [List.find].
      etrans; [apply try_given|].
      destruct (compatible E (graph s) (Some c, Some dest)); [done|apply IH].
    + rewrite (bool_decide_eq_false_2 _ Hty). unfold bind, ret. apply IH.
  - cbn [insertBlock_inputs leadingConnections]. rewrite filter_nil.
    cbn [fmap list_fmap List.find]. rewrite bool_decide_eq_true_2; [done|].
    by left.
Qed.

Lemma insertBlock_single (s : Session) (a : option ConnId) (dest : ConnId) :
  bind (moveAndConnect_ E a (Some dest))
    (λ done, if done then ret true
             else bind (warn "This block can not be inserted at the marked location.")
                    (λ _, ret false)) s =
  match List.find (λ c, compatible E (graph s) (c, Some dest)) [a] with
  | Some (Some a) => join E a dest s
  | _ => Ret false
           (reported WARN "This block can not be inserted at the marked location." s)
  end.
Proof.
  etrans; [apply try_given|]. cbn [List.find].
  destruct a as [a|]; [|done].
  by destruct (compatible E (graph s) (Some a, Some dest)).
Qed.

(** [insertBlock] on an output destination. *)
Lemma insertBlock_output (s : Session) (block : BlockId) (dest : ConnId) :
  connType (graph s) dest = OUTPUT_VALUE →
  insertBlock E block dest s =
    match List.find (λ c, compatible E (graph s) (c, Some dest))
            (Some <$> filter (λ c, connType (graph s) c = INPUT_VALUE)
                        (leadingConnections (inputList (graph s) block))) with
    | Some (Some a) => join E a dest s
    | _ => if bool_decide (None ∈ inputList (graph s) block)
           then Throw TypeError s
           else Ret false
                  (reported WARN "This block can not be inserted at the marked location." s)
    end.
Proof.
  intros Hty. unfold insertBlock.
  unfold bind at 1. unfold get at 1. cbv beta iota. rewrite Hty.
  unfold bind at 1. rewrite insertBlock_inputs_find.
  destruct (List.find _ _) as [[a|]|]; try (by case_bool_decide).
  by destruct (join_outcome a dest s) as [[s1 ->]|(e & s1 & ->)].
Qed.

(** [insertBlock] when the loop over the inputs, if it is entered, meets no
    input without connection. *)
Lemma insertBlock_find (s : Session) (block : BlockId) (dest : ConnId) :
  (connType (graph s) dest = OUTPUT_VALUE → None ∉ inputList (graph s) block) →
  insertBlock E block dest s =
    match List.find (λ c, compatible E (graph s) (c, Some dest))
            (offered (graph s) block dest) with
    | Some (Some a) => join E a dest s
    | _ => Ret false
             (reported WARN "This block can not be inserted at the marked location." s)
    end.
Proof.
  intros Hno. destruct (connType (graph s) dest) eqn:Hty.
  - unfold insertBlock, offered.
    unfold bind at 1. unfold get at 1. cbv beta iota. rewrite Hty.
    apply insertBlock_single.
  - rewrite insertBlock_output by done. unfold offered, inputConnections.
    rewrite Hty, leadingConnections_all by auto.
    rewrite bool_decide_eq_false_2 by auto. done.
  - unfold insertBlock, offered.
    unfold bind at 1. unfold get at 1. cbv beta iota. rewrite Hty.
    apply insertBlock_single.
  - unfold insertBlock, offered.
    unfold bind at 1. unfold get at 1. cbv beta iota. rewrite Hty.
    apply insertBlock_single.
Qed.

(** C5.  Where the claim has [insertBlock] go through the inputs of the
    block and report failure when none can be joined, the loop of the code
    reads the type of every input's connection without a test for null: on
    an output destination, when the block has an input without connection
    and no connection of type input before it passes the check,
    [insertBlock] throws, with no report and the session as it was, and so
    does [modify] with the marker on that output connection and the cursor
    on the block, and so does the "insert" action on the workspace. *)
Theorem insertBlock_throws_at_dummy_input (s : Session) (block : BlockId) (dest : ConnId) :
  connType (graph s) dest = OUTPUT_VALUE →
  None ∈ inputList (graph s) block →
  Forall (λ c, connType (graph s) c = INPUT_VALUE →
               compatible E (graph s) (Some c, Some dest) = false)
         (leadingConnections (inputList (graph s) block)) →
  insertBlock E block dest s = Throw TypeError s ∧
  (getCurNode (marker_ s) = Some (ConnectionNode OUTPUT_VALUE dest) →
   getCurNode (cursor_ s) = Some (BlockNode block) →
   modify E s = Throw TypeError s ∧
   (currentState_ s = STATE_WS → onBlocklyAction E INSERT_ s = Throw TypeError s)).
Proof.
  intros Hty Hdummy Hnone.
  assert (Hthrow : insertBlock E block dest s = Throw TypeError s).
  { rewrite insertBlock_output by done.
    assert (Hfind : List.find (λ c, compatible E (graph s) (c, Some dest))
              (Some <$> filter (λ c, connType (graph s) c = INPUT_VALUE)
                          (leadingConnections (inputList (graph s) block))) = None).
    { induction Hnone as [|c l Hc _ IH]; [done|].
      rewrite filter_cons. destruct (decide _) as [Hin|]; [|exact IH].
      rewrite fmap_cons. cbn [List.find]. rewrite (Hc Hin). exact IH. }
    rewrite Hfind. by rewrite bool_decide_eq_true_2. }
  split; [exact Hthrow|]. intros Hm Hc.
  assert (Hmod : modify E s = Throw TypeError s).
  { unfold modify. unfold bind at 1. unfold get at 1. cbv beta iota.
    rewrite Hm, Hc. cbn. exact Hthrow. }
  split; [exact Hmod|]. intros Hst.
  unfold onBlocklyAction. unfold bind at 1. unfold get at 1. cbv beta iota.
  rewrite Hst.
  change (workspaceOnAction_ E INSERT_ s)
    with (handled (bind (modify E) (λ _, ret tt)) s).
  unfold handled, bind. by rewrite Hmod.
Qed.

(** X17.  [insertBlock] offers the connections of the block that the type of the
    destination selects: the next connection for a previous destination,
    the previous connection for a next destination, the output connection
    for an input destination, and for an output destination the
    connections of type input of the block's inputs, in declaration order,
    provided that every input of the block has a connection.  The first
    offered connection that passes the check is joined to the destination;
    when none does (as when the destination is an input and the block has
    no output connection) the block "can not be inserted": one warning,
    false, and the session otherwise as it was. *)
Theorem insertBlock_offers (s : Session) (block : BlockId) (dest : ConnId) :
  (connType (graph s) dest = OUTPUT_VALUE → None ∉ inputList (graph s) block) →
  insertBlock E block dest s =
    match List.find (λ c, compatible E (graph s) (c, Some dest))
            (offered (graph s) block dest) with
    | Some (Some a) => join E a dest s
    | _ => Ret false
             (reported WARN "This block can not be inserted at the marked location." s)
    end ∧
  (connType (graph s) dest = INPUT_VALUE → outputConnection (graph s) block = None →
   insertBlock E block dest s =
     Ret false (reported WARN "This block can not be inserted at the marked location." s) ∧
   graph (reported WARN "This block can not be inserted at the marked location." s)
     = graph s).
Proof.
  intros Hno. split; [by apply insertBlock_find|].
  intros Hty Hout. split; [|done].
  rewrite insertBlock_find by done. unfold offered. by rewrite Hty, Hout.
Qed.

(** *** What [modify] leaves alone *)

Lemma unchanged_refl (s : Session) : unchanged s s.
Proof. by repeat split. Qed.

Lemma unchanged_trans (s1 s2 s3 : Session) :
  unchanged s1 s2 → unchanged s2 s3 → unchanged s1 s3.
Proof.
  unfold unchanged. intros (?&?&?&?&?&?&?&?&?&?) (?&?&?&?&?&?&?&?&?&?).
  split_and!; congruence.
Qed.

Lemma unchanged_reported (s : Session) l msg : unchanged s (reported l msg s).
Proof. by repeat split. Qed.

Lemma join_unchanged a b (s : Session) : unchanged s (after (join E a b s)).
Proof.
  rewrite join_cases. unfold joined.
  repeat case_match; simpl; by repeat split.
Qed.

Lemma connect_unchanged moving dest (s : Session) :
  unchanged s (after (connect E (Some moving) (Some dest) s)).
Proof.
  rewrite connect_find.
  destruct (List.find _ _) as [[[a|] [b|]]|]; try apply join_unchanged;
    simpl; unfold checkConnection_caught; unfold_monad;
    by destruct (canConnectWithReason_ E (graph s) dest moving).
Qed.

Lemma insertBlock_unchanged block dest (s : Session) :
  unchanged s (after (insertBlock E block dest s)).
Proof.
  destruct (decide (connType (graph s) dest = OUTPUT_VALUE)) as [Hty|Hty].
  - rewrite insertBlock_output by done.
    destruct (List.find _ _) as [[a|]|]; try apply join_unchanged;
      case_bool_decide; by repeat split.
  - rewrite insertBlock_find by done.
    destruct (List.find _ _) as [[a|]|]; try apply join_unchanged; by repeat split.
Qed.

(** [modify] touches the graph and the calls, nothing else. *)
Lemma modify_unchanged (s : Session) : unchanged s (after (modify E s)).
Proof.
  unfold modify. unfold bind at 1. unfold get at 1. cbv beta iota.
  destruct (getCurNode (marker_ s)) as [m|]; [|by repeat split].
  destruct (getCurNode (cursor_ s)) as [c|]; [|by repeat split].
  repeat (case_bool_decide; [by repeat split|]).
  assert (Hdrop : ∀ b xy, unchanged s (after (moveToWorkspace b xy s))).
  { intros b xy. unfold moveToWorkspace. unfold_monad.
    destruct (isShadow (graph s) b); [by repeat split|].
    case_bool_decide; simpl; by repeat split. }
  destruct m, c; try apply Hdrop; try apply connect_unchanged;
    try apply insertBlock_unchanged; try by repeat split.
  case_match; [by repeat split|apply Hdrop].
Qed.

(** *** Joining without a cycle *)

Lemma graph_joined (s : Session) a b sever :
  graph (joined E s a b sever) =
    connectTo (match sever with
               | Some x => disconnect (graph s) x
               | None => graph s
               end) b a.
Proof. unfold joined. by destruct (isSuperior E _). Qed.

Lemma rootFrom_parentless g k x : getParent g x = None → rootFrom g k x = x.
Proof. intros Hp. destruct k; simpl; by rewrite Hp. Qed.

(** Joining [a] (moving) to [b] (destination) in a graph [g1] obtained from
    [g] by severing keeps the graph free of cycles, provided the block that
    becomes the parent is not below the block that becomes the child. *)
Lemma connectTo_acyclic g g1 a b :
  valid g → acyclic g → valid g1 →
  (∀ x p, getParent g1 x = Some p → getParent g x = Some p) →
  opposite (connType g1 b) (connType g1 a) = true →
  (connType g1 a = PREVIOUS_STATEMENT ∨ connType g1 a = OUTPUT_VALUE →
   ¬ rtc (parent_of g1) (getSourceBlock g1 b) (getSourceBlock g1 a)) →
  (connType g1 b = PREVIOUS_STATEMENT ∨ connType g1 b = OUTPUT_VALUE →
   ¬ rtc (parent_of g1) (getSourceBlock g1 a) (getSourceBlock g1 b)) →
  acyclic (connectTo g1 b a).
Proof.
  intros Hv Hacy Hv1 Hsub Hopp Ha Hb.
  assert (Hsn1 : ∀ x, sn (parent_of g1) x).
  { intros x. eapply sn_subrelation; [|by apply sn_of_acyclic].
    intros c p. apply Hsub. }
  destruct Hv1 as [Htop _].
  apply acyclic_of_sn.
  destruct (connType g1 a) eqn:Hta, (connType g1 b) eqn:Htb; try discriminate.
  - (* a input, b output: the block of b becomes a child of the block of a *)
    eapply (sn_graft _ _ (getSourceBlock g1 b) (getSourceBlock g1 a)); [done| |auto].
    intros x p [Hold|[[Hx ->]|[Hx ->]]]%getParent_connectTo; [by left|..].
    + apply Htop in Hx as [_ [?|?]]; congruence.
    + apply Htop in Hx as [<- _]. by right.
  - (* a output, b input *)
    eapply (sn_graft _ _ (getSourceBlock g1 a) (getSourceBlock g1 b)); [done| |auto].
    intros x p [Hold|[[Hx ->]|[Hx ->]]]%getParent_connectTo; [by left|..].
    + apply Htop in Hx as [<- _]. by right.
    + apply Htop in Hx as [_ [?|?]]; congruence.
  - (* a next, b previous *)
    eapply (sn_graft _ _ (getSourceBlock g1 b) (getSourceBlock g1 a)); [done| |auto].
    intros x p [Hold|[[Hx ->]|[Hx ->]]]%getParent_connectTo; [by left|..].
    + apply Htop in Hx as [_ [?|?]]; congruence.
    + apply Htop in Hx as [<- _]. by right.
  - (* a previous, b next *)
    eapply (sn_graft _ _ (getSourceBlock g1 a) (getSourceBlock g1 b)); [done| |auto].
    intros x p [Hold|[[Hx ->]|[Hx ->]]]%getParent_connectTo; [by left|..].
    + apply Htop in Hx as [<- _]. by right.
    + apply Htop in Hx as [_ [?|?]]; congruence.
Qed.

(** The join of a pair that the check may accept: the link on the
    descendant side exists when the two blocks share a root, the join
    returns true, and the graph stays in order and free of cycles. *)
Lemma join_keeps_acyclic (s : Session) (a b : ConnId) :
  roles_ok E → valid (graph s) → acyclic (graph s) →
  getSourceBlock (graph s) b ≠ getSourceBlock (graph s) a →
  opposite (connType (graph s) b) (connType (graph s) a) = true →
  let sever := if share_root (graph s) a b
               then getInferiorConnection_ E (graph s) (descendant_side (graph s) a b)
               else None in
  (share_root (graph s) a b = true → is_Some sever) ∧
  join E a b s = Ret true (joined E s a b sever) ∧
  valid (graph (joined E s a b sever)) ∧
  acyclic (graph (joined E s a b sever)).
Proof.
  intros Hroles Hv Hacy Hne Hopp.
  set (g := graph s) in *.
  set (A := getSourceBlock g a) in *. set (B := getSourceBlock g b) in *.
  assert (Hsup : ∀ c, isSuperior E (connType g c) = true →
                      ¬ (connType g c = PREVIOUS_STATEMENT ∨ connType g c = OUTPUT_VALUE)).
  { intros c. rewrite Hroles. intros [?|?]%bool_decide_eq_true [?|?]; congruence. }
  assert (Hinf : ∀ c, isSuperior E (connType g c) = false →
                      connType g c = PREVIOUS_STATEMENT ∨ connType g c = OUTPUT_VALUE).
  { intros c. rewrite Hroles. intros Hf%bool_decide_eq_false.
    destruct (connType g c); auto; destruct Hf; auto. }
  assert (Hboth : (connType g a = PREVIOUS_STATEMENT ∨ connType g a = OUTPUT_VALUE) →
                  (connType g b = PREVIOUS_STATEMENT ∨ connType g b = OUTPUT_VALUE) → False).
  { intros [Ha|Ha] [Hb|Hb]; rewrite Ha, Hb in Hopp; discriminate. }
  assert (Hfin : ∀ sever,
    let g1 := match sever with Some x => disconnect g x | None => g end in
    (connType g a = PREVIOUS_STATEMENT ∨ connType g a = OUTPUT_VALUE →
     ¬ rtc (parent_of g1) B A) →
    (connType g b = PREVIOUS_STATEMENT ∨ connType g b = OUTPUT_VALUE →
     ¬ rtc (parent_of g1) A B) →
    valid (graph (joined E s a b sever)) ∧ acyclic (graph (joined E s a b sever))).
  { intros sever g1 Ca Cb. rewrite graph_joined. fold g. fold g1.
    assert (Hv1 : valid g1) by (destruct sever; [by apply valid_disconnect|done]).
    assert (Hty : ∀ c, connType g1 c = connType g c)
      by (intros c; destruct sever; [apply connType_disconnect|done]).
    assert (Hsrc : ∀ c, getSourceBlock g1 c = getSourceBlock g c)
      by (intros c; destruct sever; [apply getSourceBlock_disconnect|done]).
    split; [by apply valid_connectTo|].
    apply (connectTo_acyclic g); try done.
    - intros x p. destruct sever; [apply getParent_disconnect|done].
    - by rewrite !Hty.
    - by rewrite Hty, !Hsrc.
    - by rewrite Hty, !Hsrc. }
  assert (Hold : ∀ x u v, rtc (parent_of (disconnect g x)) u v → rtc (parent_of g) u v).
  { intros x u v. apply rtc_subrel. intros c p. apply getParent_disconnect. }
  assert (Hcut : ∀ x u v, topConnection g u = Some x → u ≠ v →
                          ¬ rtc (parent_of (disconnect g x)) u v).
  { intros x u v Htop Huv [?|(y & Hy & _)]%rtc_inv; [done|].
    unfold parent_of in Hy. by rewrite getParent_disconnect_top in Hy. }
  assert (Htopof : ∀ u p, getParent g u = Some p → is_Some (topConnection g u)).
  { intros u p. unfold getParent. destruct (topConnection g u); [eauto|done]. }
  cbv zeta. rewrite join_cases. fold g.
  destruct (share_root g a b) eqn:Hshare; cbv beta iota.
  - apply bool_decide_eq_true in Hshare. fold A B in Hshare.
    unfold descendant_side. fold A B.
    rewrite getInferiorConnection_counterpart. unfold inferior_counterpart.
    case_bool_decide as Hdesc.
    + (* the destination block is a descendant of the moving block *)
      apply getDescendants_sound in Hdesc as Hba.
      destruct (isSuperior E (connType g b)) eqn:Hsb; cbv beta iota.
      * assert (is_Some (topConnection g B)) as [x Hx].
        { apply rtc_inv in Hba as [?|(y & Hy & _)]; [done|]. by eapply Htopof. }
        fold B. rewrite Hx. cbv beta iota.
        split; [eauto|]. split; [reflexivity|]. apply Hfin.
        -- intros _. by apply Hcut.
        -- intros Hb. by apply Hsup in Hsb.
      * split; [eauto|]. split; [reflexivity|]. apply Hfin.
        -- intros Ha. destruct (Hboth Ha). by apply Hinf.
        -- intros _ Hab%Hold. apply (Hacy A).
           eapply tc_rtc_r; [|exact Hba].
           apply rtc_tc in Hab as [?|?]; [congruence|done].
    + (* it is not *)
      destruct (isSuperior E (connType g a)) eqn:Hsa; cbv beta iota.
      * assert (is_Some (topConnection g A)) as [x Hx].
        { destruct (getParent g A) as [p|] eqn:Hp; [by eapply Htopof|].
          destruct Hdesc. apply getDescendants_complete; [done..| |done].
          unfold getRootBlock in Hshare. rewrite (rootFrom_parentless _ _ A) in Hshare by done.
          rewrite Hshare. apply rootFrom_rtc. }
        fold A. rewrite Hx. cbv beta iota.
        split; [eauto|]. split; [reflexivity|]. apply Hfin.
        -- intros Ha. by apply Hsup in Hsa.
        -- intros _. by apply Hcut.
      * split; [eauto|]. split; [reflexivity|]. apply Hfin.
        -- intros _ Hba%Hold. destruct Hdesc. by apply getDescendants_complete.
        -- intros Hb. destruct (Hboth (Hinf _ Hsa) Hb).
  - apply bool_decide_eq_false in Hshare. fold A B in Hshare.
    split; [done|]. split; [reflexivity|]. apply (Hfin None).
    + intros _ Hba. destruct Hshare. symmetry. by apply getRootBlock_rtc.
    + intros _ Hab. destruct Hshare. by apply getRootBlock_rtc.
Qed.


(** *** Focus *)

Lemma after_handled (m : M unit) (s : Session) : after (handled m s) = after (m s).
Proof. unfold handled, bind, ret. by destruct (m s). Qed.

Lemma selectPreviousBlockInFlyout_state (s : Session) :
  currentState_ (after (selectPreviousBlockInFlyout s)) = currentState_ s.
Proof.
  unfold selectPreviousBlockInFlyout. unfold_monad.
  destruct (flyoutBlock_ s); [|done].
  destruct (indexOf _ _) as [[|i]|]; try done.
  by destruct (_ !! _).
Qed.

Lemma selectNextBlockInFlyout_state (s : Session) :
  currentState_ (after (selectNextBlockInFlyout s)) = currentState_ s.
Proof.
  unfold selectNextBlockInFlyout. unfold_monad.
  destruct (flyoutBlock_ s); [|done].
  destruct (indexOf _ _) as [i|]; try done.
  by destruct (_ !! _).
Qed.

Lemma focusToolbox_state (s : Session) :
  currentState_ (after (focusToolbox E s)) = STATE_TOOLBOX.
Proof.
  unfold focusToolbox, resetFlyout, markAtCursor. unfold_monad. simpl.
  destruct (getCurNode (marker_ s)); simpl;
    destruct (currentCategory_ s); simpl; by destruct (hasToolbox s).
Qed.

Lemma focusFlyout_state (s : Session) :
  currentState_ (after (focusFlyout s)) = STATE_FLYOUT.
Proof.
  unfold focusFlyout, markAtCursor. unfold_monad. simpl.
  destruct (getCurNode (marker_ s)); simpl;
    by destruct (flyout s) as [[v [[|b l]|]]|].
Qed.

Lemma previousCategory_state (s : Session) :
  currentState_ (after (previousCategory E s)) = currentState_ s.
Proof.
  unfold previousCategory. unfold_monad.
  destruct (currentCategory_ s); [|done]. by destruct (getPreviousShownNode E _ _).
Qed.

Lemma nextCategory_state (s : Session) :
  currentState_ (after (nextCategory E s)) = currentState_ s.
Proof.
  unfold nextCategory. unfold_monad.
  destruct (currentCategory_ s); [|done]. by destruct (getNextShownNode E _ _).
Qed.

Lemma outCategory_state (s : Session) :
  currentState_ (after (outCategory E s)) = currentState_ s.
Proof.
  unfold outCategory. unfold_monad.
  destruct (currentCategory_ s) as [c|]; [|done].
  destruct (_ && _); [done|].
  destruct (getParentNode E _ _); [|done]. by case_bool_decide.
Qed.

Lemma inCategory_state (s : Session) :
  currentState_ (after (inCategory E s)) = currentState_ s ∨
  currentState_ (after (inCategory E s)) = STATE_FLYOUT.
Proof.
  unfold inCategory. unfold_monad.
  destruct (currentCategory_ s) as [c|]; [|by left].
  destruct (hasChildren E _ _); [|right; apply focusFlyout_state].
  left. destruct (negb _); [done|]. by destruct (getFirstChild E _ _).
Qed.

(** [focusWorkspace] runs to its end when a toolbox comes with a flyout. *)
Lemma focusWorkspace_returns (s : Session) :
  (hasToolbox s = true → is_Some (flyout s)) →
  ∃ s', focusWorkspace s = Ret tt s' ∧ currentState_ s' = STATE_WS.
Proof.
  intros Hfl. unfold focusWorkspace, resetFlyout, enableKeyboardAccessibility.
  unfold_monad. simpl.
  destruct (hasToolbox s); simpl.
  - destruct Hfl as [fl ->]; [done|]. simpl. destruct (selected s); simpl; eauto.
  - destruct (selected s); simpl; eauto.
Qed.

Lemma insertFromFlyout_closed (s : Session) :
  flyout s = None ∨ (∃ fl, flyout s = Some fl ∧ fl_visible fl = false) →
  ∃ msg, insertFromFlyout E s = Ret tt (reported WARN msg s).
Proof.
  unfold insertFromFlyout. unfold_monad.
  intros [->|(fl & -> & ->)]; eauto.
Qed.

(** [insertFromFlyout] once the flyout is there and visible and the block
    is created: the rest of the function runs from the session [inserting]. *)
Lemma insertFromFlyout_open (s : Session) fl g' newBlock :
  flyout s = Some fl → fl_visible fl = true →
  createBlock E (graph s) (flyoutBlock_ s) = Some (g', newBlock) →
  insertFromFlyout E s =
    bind (modify E)
      (λ ok,
         bind (when (negb ok)
                 (warn "Something went wrong while inserting a block from the flyout."))
           (λ _, bind focusWorkspace
                   (λ _, bind (update (λ s', with_cursor
                                  (setLocation (Some (getTopNode_ (graph s') newBlock))) s'))
                           (λ _, removeMark))))
      (inserting s g' newBlock).
Proof.
  intros Hfl Hvis Hcreate. unfold insertFromFlyout.
  unfold bind at 1. unfold get at 1. cbv beta iota.
  rewrite Hfl, Hvis, Hcreate. reflexivity.
Qed.

(** [insertFromFlyout] when the block is not created or [modify] throws:
    the exception leaves the function, and the focus state is as it was. *)
Lemma insertFromFlyout_throws (s : Session) fl :
  flyout s = Some fl → fl_visible fl = true →
  (createBlock E (graph s) (flyoutBlock_ s) = None ∨
   ∃ g' newBlock e s1,
     createBlock E (graph s) (flyoutBlock_ s) = Some (g', newBlock) ∧
     modify E (inserting s g' newBlock) = Throw e s1) →
  ∃ e s2, insertFromFlyout E s = Throw e s2 ∧ currentState_ s2 = currentState_ s.
Proof.
  intros Hfl Hvis [Hnone|(g' & newBlock & e & s1 & Hcreate & Hmod)].
  - unfold insertFromFlyout. unfold bind at 1. unfold get at 1. cbv beta iota.
    rewrite Hfl, Hvis, Hnone. by exists TypeError, s.
  - rewrite (insertFromFlyout_open s fl g' newBlock) by done.
    unfold bind at 1. rewrite Hmod. exists e, s1. split; [done|].
    pose proof (modify_unchanged (inserting s g' newBlock)) as Hun.
    rewrite Hmod in Hun. by destruct Hun as (_&_&_&_&Hst&_).
Qed.

(** C9 (as amended).  From the flyout or the toolbox, an action leaves the
    focus on the workspace only if it is "exit", or "mark" in the flyout,
    that is an insertion from the flyout, made with the flyout present and
    visible, in which the block is created and [modify] returns.  Such an
    insertion does move the focus to the workspace, whether [modify] returns
    true or false; with the flyout absent or hidden the insertion returns
    with the focus on the flyout.  Moreover, where the block is not
    created, or [modify] throws, the insertion throws with the focus still
    on the flyout. *)
Theorem focus_back_to_workspace (s : Session) (name : string) :
  (currentState_ s ≠ STATE_WS →
   currentState_ (after (onBlocklyAction E name s)) = STATE_WS →
   name = EXIT_ ∨
   (name = MARK_ ∧ currentState_ s = STATE_FLYOUT ∧
    ∃ fl, flyout s = Some fl ∧ fl_visible fl = true ∧
    ∃ g' newBlock ok s1,
      createBlock E (graph s) (flyoutBlock_ s) = Some (g', newBlock) ∧
      modify E (inserting s g' newBlock) = Ret ok s1)) ∧
  (∀ fl g' newBlock ok s1,
     currentState_ s = STATE_FLYOUT → flyout s = Some fl → fl_visible fl = true →
     createBlock E (graph s) (flyoutBlock_ s) = Some (g', newBlock) →
     modify E (inserting s g' newBlock) = Ret ok s1 →
     ∃ s2, onBlocklyAction E MARK_ s = Ret true s2 ∧ currentState_ s2 = STATE_WS) ∧
  (currentState_ s = STATE_FLYOUT →
   (flyout s = None ∨ ∃ fl, flyout s = Some fl ∧ fl_visible fl = false) →
   ∃ s2, onBlocklyAction E MARK_ s = Ret true s2 ∧ currentState_ s2 = STATE_FLYOUT) ∧
  (∀ fl, currentState_ s = STATE_FLYOUT → flyout s = Some fl → fl_visible fl = true →
     (createBlock E (graph s) (flyoutBlock_ s) = None ∨
      ∃ g' newBlock e s1,
        createBlock E (graph s) (flyoutBlock_ s) = Some (g', newBlock) ∧
        modify E (inserting s g' newBlock) = Throw e s1) →
     ∃ e s2, onBlocklyAction E MARK_ s = Throw e s2 ∧ currentState_ s2 = STATE_FLYOUT).
Proof.
  assert (Hdispatch : ∀ name, onBlocklyAction E name s =
            match currentState_ s with
            | STATE_WS => workspaceOnAction_ E name
            | STATE_FLYOUT => flyoutOnAction_ E name
            | STATE_TOOLBOX => toolboxOnAction_ E name
            end s) by done.
  assert (Hmark : flyoutOnAction_ E MARK_ = handled (insertFromFlyout E)) by done.
  split; [|split; [|split]].
  - intros Hws. rewrite Hdispatch.
    destruct (currentState_ s) eqn:Hst; [|done|].
    + unfold flyoutOnAction_.
      case_bool_decide;
        [rewrite after_handled, selectPreviousBlockInFlyout_state, Hst; done|].
      case_bool_decide; [rewrite after_handled, focusToolbox_state; done|].
      case_bool_decide;
        [rewrite after_handled, selectNextBlockInFlyout_state, Hst; done|].
      case_bool_decide as Hname.
      { rewrite after_handled. intros Hafter. right. split; [done|]. split; [done|].
        destruct (flyout s) as [fl|] eqn:Hfl; [destruct (fl_visible fl) eqn:Hvis|];
          [|destruct (insertFromFlyout_closed s) as [msg Hm];
            [rewrite Hfl; eauto|]; rewrite Hm in Hafter; simpl in Hafter; congruence..].
        exists fl. split; [done|]. split; [done|].
        destruct (createBlock E (graph s) (flyoutBlock_ s)) as [[g' newBlock]|] eqn:Hcreate.
        - destruct (modify E (inserting s g' newBlock)) as [ok s1|e s1] eqn:Hmod;
            [by eauto 10|].
          destruct (insertFromFlyout_throws s fl Hfl Hvis) as (e' & s2 & Hthrow & Hs2);
            [right; eauto 10|].
          rewrite Hthrow in Hafter. simpl in Hafter. congruence.
        - destruct (insertFromFlyout_throws s fl Hfl Hvis) as (e' & s2 & Hthrow & Hs2);
            [by left|].
          rewrite Hthrow in Hafter. simpl in Hafter. congruence. }
      case_bool_decide; [by left|]. simpl. by rewrite Hst.
    + unfold toolboxOnAction_.
      case_bool_decide; [rewrite after_handled, previousCategory_state, Hst; done|].
      case_bool_decide; [rewrite after_handled, outCategory_state, Hst; done|].
      case_bool_decide; [rewrite after_handled, nextCategory_state, Hst; done|].
      case_bool_decide;
        [rewrite after_handled;
         destruct (inCategory_state s) as [-> | ->]; rewrite ?Hst; done|].
      case_bool_decide; [by left|]. simpl. by rewrite Hst.
  - intros fl g' newBlock ok s1 Hst Hfl Hvis Hcreate Hmod.
    rewrite Hdispatch, Hst, Hmark.
    unfold handled. unfold bind at 1.
    rewrite (insertFromFlyout_open s fl g' newBlock) by done.
    unfold bind at 1. rewrite Hmod.
    pose proof (modify_unchanged (inserting s g' newBlock)) as Hun.
    rewrite Hmod in Hun. destruct Hun as (_&_&_&_&_&_&_&_&_&Hfl1).
    simpl in Hfl1. rewrite Hfl in Hfl1.
    set (s1' := if ok then s1
                else reported WARN
                       "Something went wrong while inserting a block from the flyout." s1).
    assert (Hwhen : when (negb ok)
                      (warn "Something went wrong while inserting a block from the flyout.") s1
                    = Ret tt s1') by (by destruct ok).
    unfold bind at 1. rewrite Hwhen.
    destruct (focusWorkspace_returns s1') as (s2 & Hfw & Hws).
    { intros _. unfold s1'. destruct ok; simpl; rewrite Hfl1; eauto. }
    unfold bind at 1. rewrite Hfw.
    unfold removeMark. unfold_monad. eexists. split; [reflexivity|done].
  - intros Hst Hno. rewrite Hdispatch, Hst, Hmark.
    destruct (insertFromFlyout_closed s Hno) as [msg Hm].
    unfold handled, bind. rewrite Hm. eexists. split; [reflexivity|done].
  - intros fl Hst Hfl Hvis Hfail. rewrite Hdispatch, Hst, Hmark.
    destruct (insertFromFlyout_throws s fl Hfl Hvis Hfail) as (e & s2 & Hthrow & Hs2).
    unfold handled, bind. rewrite Hthrow. exists e, s2. split; [done|congruence].
Qed.

(** *** Selection in the flyout *)

Lemma indexOf_lookup (l : list BlockId) x i : indexOf l x = Some i → l !! i = Some x.
Proof.
  revert i. induction l as [|y l IH]; intros i; simpl; [done|].
  case_decide as Hy; [by intros [= <-]; subst|].
  destruct (indexOf l x) as [j|]; simpl; [|done]. intros [= <-]. by apply IH.
Qed.

Lemma indexOf_NoDup (l : list BlockId) x i :
  NoDup l → l !! i = Some x → indexOf l x = Some i.
Proof.
  intros Hnd. revert i. induction Hnd as [|y l Hy _ IH]; intros i; [done|].
  destruct i as [|i]; simpl.
  - intros [= ->]. by rewrite decide_True.
  - intros Hl. rewrite decide_False.
    + by rewrite (IH i Hl).
    + intros ->. apply Hy. by eapply list_elem_of_lookup_2.
Qed.

(** X1.  Stepping to the next block of the flyout and back.  When the selected
    block is followed by another one in the flyout's list of distinct
    blocks, [selectNextBlockInFlyout] selects that one and puts the cursor on
    it, and [selectPreviousBlockInFlyout] then returns to the first. *)
Theorem flyout_next_then_previous (s : Session) (i : nat) (b nb : BlockId) :
  flyoutBlock_ s = Some b →
  NoDup (getFlyoutBlocks_ s) →
  getFlyoutBlocks_ s !! i = Some b →
  getFlyoutBlocks_ s !! S i = Some nb →
  ∃ s1 s2,
    selectNextBlockInFlyout s = Ret tt s1 ∧
    flyoutBlock_ s1 = Some nb ∧ getCurNode (cursor_ s1) = Some (BlockNode nb) ∧
    selectPreviousBlockInFlyout s1 = Ret tt s2 ∧
    flyoutBlock_ s2 = Some b ∧ getCurNode (cursor_ s2) = Some (BlockNode b) ∧
    graph s2 = graph s ∧ marker_ s2 = marker_ s.
Proof.
  intros Hsel Hnd Hb Hnb.
  pose proof (indexOf_NoDup _ _ _ Hnd Hb) as Hib.
  pose proof (indexOf_NoDup _ _ _ Hnd Hnb) as Hinb.
  eexists _, _. split_and!.
  - unfold selectNextBlockInFlyout. unfold_monad. rewrite Hsel, Hib, Hnb. reflexivity.
  - done.
  - done.
  - unfold selectPreviousBlockInFlyout. unfold_monad. cbn [flyoutBlock_ with_cursor
      with_flyoutBlock].
    change (getFlyoutBlocks_ _) with (getFlyoutBlocks_ s).
    rewrite Hinb, Hb. reflexivity.
  - done.
  - done.
  - done.
  - done.
Qed.

(** X2.  The selection does not wrap around: on the last block of the flyout
    "next" changes nothing, on the first block "previous" changes nothing,
    and with no block selected both change nothing. *)
Theorem flyout_selection_stops (s : Session) :
  (∀ b l, flyoutBlock_ s = Some b → NoDup (getFlyoutBlocks_ s) →
          getFlyoutBlocks_ s = l ++ [b] → selectNextBlockInFlyout s = Ret tt s) ∧
  (∀ b l, flyoutBlock_ s = Some b → getFlyoutBlocks_ s = b :: l →
          selectPreviousBlockInFlyout s = Ret tt s) ∧
  (flyoutBlock_ s = None →
   selectNextBlockInFlyout s = Ret tt s ∧ selectPreviousBlockInFlyout s = Ret tt s).
Proof.
  split_and!.
  - intros b l Hsel Hnd Hl.
    assert (Hib : indexOf (getFlyoutBlocks_ s) b = Some (length l)).
    { apply indexOf_NoDup; [done|]. rewrite Hl. by apply list_lookup_middle. }
    unfold selectNextBlockInFlyout. unfold_monad. rewrite Hsel, Hib.
    rewrite Hl, lookup_ge_None_2; [done|]. rewrite length_app. simpl. lia.
  - intros b l Hsel Hl.
    unfold selectPreviousBlockInFlyout. unfold_monad. rewrite Hsel, Hl. simpl.
    by rewrite decide_True.
  - intros Hsel. unfold selectNextBlockInFlyout, selectPreviousBlockInFlyout.
    unfold_monad. by rewrite Hsel.
Qed.

(** *** The dispatch tables *)

Lemma handled_ret (m : M unit) (s s' : Session) r : handled m s = Ret r s' → r = true.
Proof. unfold handled, bind, ret. destruct (m s); congruence. Qed.

(** X3.  An action is handled exactly when its name is in the table of the
    context that has the focus: whenever the dispatch returns, it returns
    true for the names of [actionsOf] and false for every other name, and a
    name that is not handled leaves the session as it was. *)
Theorem dispatch_by_table (s s' : Session) (name : string) (r : bool) :
  onBlocklyAction E name s = Ret r s' →
  r = bool_decide (name ∈ actionsOf (currentState_ s)) ∧ (r = false → s' = s).
Proof.
  assert (Hdispatch : onBlocklyAction E name s =
            match currentState_ s with
            | STATE_WS => workspaceOnAction_ E name
            | STATE_FLYOUT => flyoutOnAction_ E name
            | STATE_TOOLBOX => toolboxOnAction_ E name
            end s) by done.
  rewrite Hdispatch.
  assert (Hin : ∀ l : list string, name ∈ l → true = bool_decide (name ∈ l))
    by (intros l Hl; by rewrite bool_decide_eq_true_2).
  assert (Hout : ∀ l : list string, name ∉ l → false = bool_decide (name ∈ l))
    by (intros l Hl; by rewrite bool_decide_eq_false_2).
  destruct (currentState_ s); simpl.
  - unfold flyoutOnAction_.
    repeat (case_bool_decide;
            [intros ->%handled_ret; split;
             [apply Hin; rewrite !elem_of_cons; tauto|done]|]).
    intros [= <- <-]. split; [|done].
    apply Hout. rewrite !elem_of_cons, elem_of_nil. tauto.
  - unfold workspaceOnAction_.
    repeat (case_bool_decide;
            [intros ->%handled_ret; split;
             [apply Hin; rewrite !elem_of_cons; tauto|done]|]).
    intros [= <- <-]. split; [|done].
    apply Hout. rewrite !elem_of_cons, elem_of_nil. tauto.
  - unfold toolboxOnAction_.
    repeat (case_bool_decide;
            [intros ->%handled_ret; split;
             [apply Hin; rewrite !elem_of_cons; tauto|done]|]).
    intros [= <- <-]. split; [|done].
    apply Hout. rewrite !elem_of_cons, elem_of_nil. tauto.
Qed.

(** *** What [modify] never touches *)

(** X4.  Whatever [modify] does to the graph, and whether it returns or throws,
    it leaves the cursor, the marker, the focus state, the selections and
    the toolbox and flyout as they were: the placement of cursor and marker
    after an insertion is left open in the source. *)
Theorem modify_keeps_pointers (s : Session) : unchanged s (after (modify E s)).
Proof. apply modify_unchanged. Qed.

(** *** Entering the workspace *)

Lemma disconnectBlocks_returns (s : Session) :
  is_Some (getCurNode (cursor_ s)) → ∃ s', disconnectBlocks E s = Ret tt s'.
Proof.
  intros [n Hn]. unfold disconnectBlocks. unfold_monad. rewrite Hn.
  destruct n as [f|b|b|w|role c]; eauto.
  destruct (targetConnection (graph s) c) as [t|]; eauto.
  simpl. destruct (isShadow _ _); eauto.
Qed.

Lemma handleEnterForWS_returns (s : Session) :
  is_Some (getCurNode (cursor_ s)) → ∃ s', handleEnterForWS s = Ret tt s'.
Proof.
  intros [n Hn]. unfold handleEnterForWS, markAtCursor. unfold_monad. rewrite Hn.
  destruct n; eauto.
Qed.

(** X5.  [focusWorkspace] runs to its end unless there is a toolbox without
    flyout.  It puts the focus on the workspace, switches accessibility mode
    on, clears the flyout selection and leaves graph and marker alone; the
    cursor then holds a location (the top node of the block that was
    selected, whose selection is dropped, or else the workspace point
    (100, 100)), so that "disconnect" and "mark" dispatched next return. *)
Theorem focusWorkspace_ready (s : Session) :
  (hasToolbox s = true → is_Some (flyout s)) →
  ∃ s1,
    focusWorkspace s = Ret tt s1 ∧
    currentState_ s1 = STATE_WS ∧ keyboardAccessibilityMode s1 = true ∧
    flyoutBlock_ s1 = None ∧ selected s1 = None ∧
    graph s1 = graph s ∧ getCurNode (marker_ s1) = getCurNode (marker_ s) ∧
    getCurNode (cursor_ s1) =
      Some (match selected s with
            | Some b => getTopNode_ (graph s) b
            | None => WorkspaceNode (100, 100)%Z
            end) ∧
    (∃ s2, onBlocklyAction E DISCONNECT_ s1 = Ret true s2) ∧
    (∃ s2, onBlocklyAction E MARK_ s1 = Ret true s2).
Proof.
  intros Hfl.
  assert (Hfw : ∃ s1, focusWorkspace s = Ret tt s1 ∧
    currentState_ s1 = STATE_WS ∧ keyboardAccessibilityMode s1 = true ∧
    flyoutBlock_ s1 = None ∧ selected s1 = None ∧
    graph s1 = graph s ∧ getCurNode (marker_ s1) = getCurNode (marker_ s) ∧
    getCurNode (cursor_ s1) =
      Some (match selected s with
            | Some b => getTopNode_ (graph s) b
            | None => WorkspaceNode (100, 100)%Z
            end)).
  { unfold focusWorkspace, resetFlyout, enableKeyboardAccessibility.
    unfold_monad. simpl.
    destruct (hasToolbox s); simpl.
    - destruct Hfl as [fl ->]; [done|]. simpl.
      destruct (selected s) eqn:Hsel; simpl; eexists;
        (split; [reflexivity|]); simpl; by rewrite ?Hsel.
    - destruct (selected s) eqn:Hsel; simpl; eexists;
        (split; [reflexivity|]); simpl; by rewrite ?Hsel. }
  destruct Hfw as (s1 & Hrun & Hst & Hacc & Hfb & Hsel & Hg & Hm & Hc).
  exists s1. split_and!; try done.
  - destruct (disconnectBlocks_returns s1) as [s2 Hd]; [rewrite Hc; eauto|].
    exists s2. unfold onBlocklyAction. unfold bind at 1. unfold get at 1.
    cbv beta iota. rewrite Hst.
    change (workspaceOnAction_ E DISCONNECT_) with (handled (disconnectBlocks E)).
    unfold handled, bind. by rewrite Hd.
  - destruct (handleEnterForWS_returns s1) as [s2 Hd]; [rewrite Hc; eauto|].
    exists s2. unfold onBlocklyAction. unfold bind at 1. unfold get at 1.
    cbv beta iota. rewrite Hst.
    change (workspaceOnAction_ E MARK_)
      with (handled (handleEnterForWS (Tree:=Tree) (Cat:=Cat))).
    unfold handled, bind. by rewrite Hd.
Qed.

(** *** What can be marked *)

(** X6.  [handleEnterForWS] marks connections and workspace locations only: with
    the cursor on such a location the marker takes it, with the cursor on a
    field, block or stack the marker stays as it was; so a marker that could
    serve as anchor still can.  Graph and cursor are left alone. *)
Theorem handleEnterForWS_markable (s : Session) (n : ASTNode) :
  getCurNode (cursor_ s) = Some n →
  markable (getCurNode (marker_ s)) →
  ∃ s',
    handleEnterForWS s = Ret tt s' ∧
    getCurNode (marker_ s') =
      (if bool_decide (isConnection n = true ∨ getType n = WORKSPACE)
       then Some n else getCurNode (marker_ s)) ∧
    markable (getCurNode (marker_ s')) ∧
    graph s' = graph s ∧ cursor_ s' = cursor_ s.
Proof.
  intros Hn Hm. unfold handleEnterForWS, markAtCursor. unfold_monad. rewrite Hn.
  destruct n as [f|b|b|w|role c]; eexists; (split; [reflexivity|]); simpl;
    rewrite ?Hn; split_and!; try done; try (by left); by right.
Qed.

(** X7.  Opening the flyout marks whatever the cursor is on.  With no marker set
    and the cursor on a block, [focusFlyout] marks that block, and every
    later [modify] with that marker and some cursor location is turned down
    with the warning that a block should not have been marked. *)
Theorem focusFlyout_marks_block (s : Session) (b : BlockId) :
  getCurNode (marker_ s) = None →
  getCurNode (cursor_ s) = Some (BlockNode b) →
  getCurNode (marker_ (after (focusFlyout s))) = Some (BlockNode b) ∧
  ∀ s2, getCurNode (marker_ s2) = Some (BlockNode b) →
        is_Some (getCurNode (cursor_ s2)) →
        modify E s2 =
          Ret false (reported WARN "Should not have been able to mark a block." s2).
Proof.
  intros Hm Hc. split.
  - unfold focusFlyout, markAtCursor. unfold_monad. simpl. rewrite Hm. simpl.
    by destruct (flyout s) as [[v [[|b' l]|]]|].
  - intros s2 Hm2 [c Hc2]. unfold modify. unfold_monad. by rewrite Hm2, Hc2.
Qed.

(** *** The cursor when a block is deleted or mutated *)

Variable fieldSourceBlock : FieldId → BlockId.

Lemma elem_of_getChildren g b c : c ∈ getChildren g b ↔ getParent g c = Some b.
Proof.
  unfold getChildren. rewrite list_elem_of_filter, elem_of_seq. split; [tauto|].
  intros Hp. split; [done|]. split; [lia|]. simpl.
  unfold getParent in Hp. destruct (topConnection g c) eqn:Htop; [|done].
  by eapply topConnection_in_range.
Qed.

Lemma parent_not_self g b p : acyclic g → getParent g b = Some p → p ≠ b.
Proof. intros Hacy Hp ->. apply (Hacy b). by apply tc_once. Qed.

(** X8.  When the block under the cursor (the block of its block, field or
    connection location) is deleted, [moveCursorOnBlockDelete] takes the
    cursor off it: onto the connection of the parent that the block was
    attached to, or, for a block without parent, onto the workspace at the
    block's position.  In a graph without cycle the cursor's block is then
    no longer the deleted one.  The graph itself is not touched. *)
Theorem cursor_leaves_deleted_block (s : Session) (deleted : BlockId) :
  acyclic (graph s) →
  getSourceBlock_ fieldSourceBlock (graph s) (getCurNode (cursor_ s)) = Some deleted →
  ∃ s',
    moveCursorOnBlockDelete fieldSourceBlock deleted s = Ret tt s' ∧
    graph s' = graph s ∧ marker_ s' = marker_ s ∧
    getSourceBlock_ fieldSourceBlock (graph s') (getCurNode (cursor_ s')) ≠ Some deleted ∧
    match getParent (graph s) deleted with
    | Some p =>
        ∃ c, topConnection (graph s) deleted = Some c ∧
             ∃ t, targetConnection (graph s) c = Some t ∧
                  getSourceBlock (graph s) t = p ∧
                  getCurNode (cursor_ s') = Some (createConnectionNode (graph s) t)
    | None =>
        getCurNode (cursor_ s') =
          Some (WorkspaceNode (getRelativeToSurfaceXY (graph s) deleted))
    end.
Proof.
  intros Hacy Hsrc. unfold moveCursorOnBlockDelete. unfold_monad. rewrite Hsrc.
  rewrite bool_decide_eq_true_2 by done.
  destruct (getParent (graph s) deleted) as [p|] eqn:Hp.
  - pose proof (parent_not_self _ _ _ Hacy Hp) as Hne.
    unfold getParent in Hp.
    destruct (topConnection (graph s) deleted) as [c|]; [|done].
    destruct (targetConnection (graph s) c) as [t|] eqn:Ht; [|done].
    injection Hp as Hp. simpl. eexists. split_and!; try reflexivity.
    + simpl. congruence.
    + exists c. split; [done|]. exists t. by split_and!.
  - eexists. split_and!; try reflexivity. done.
Qed.

(** X9.  For a cursor that is not on the deleted block: when the cursor's block
    is a child of the deleted block the cursor moves to the workspace at the
    position of its block; in every other case, and so for a cursor without
    location or on a workspace or stack location (be it the stack of the
    deleted block), [moveCursorOnBlockDelete] changes nothing. *)
Theorem cursor_beside_deleted_block (s : Session) (deleted : BlockId) :
  (∀ b, getSourceBlock_ fieldSourceBlock (graph s) (getCurNode (cursor_ s)) = Some b →
        b ≠ deleted →
        moveCursorOnBlockDelete fieldSourceBlock deleted s =
          Ret tt
            (if bool_decide (getParent (graph s) b = Some deleted)
             then with_cursor
                    (setLocation (Some (WorkspaceNode
                                          (getRelativeToSurfaceXY (graph s) b)))) s
             else s)) ∧
  (getSourceBlock_ fieldSourceBlock (graph s) (getCurNode (cursor_ s)) = None →
   moveCursorOnBlockDelete fieldSourceBlock deleted s = Ret tt s) ∧
  (getCurNode (cursor_ s) = Some (StackNode deleted) →
   moveCursorOnBlockDelete fieldSourceBlock deleted s = Ret tt s).
Proof.
  split_and!.
  - intros b Hsrc Hne. unfold moveCursorOnBlockDelete. unfold_monad. rewrite Hsrc.
    rewrite bool_decide_eq_false_2 by done.
    destruct (decide (getParent (graph s) b = Some deleted)) as [Hp|Hp].
    + rewrite !bool_decide_eq_true_2; [done|done|]. by apply elem_of_getChildren.
    + rewrite !bool_decide_eq_false_2; [done|done|]. by rewrite elem_of_getChildren.
  - intros Hsrc. unfold moveCursorOnBlockDelete. unfold_monad. by rewrite Hsrc.
  - intros Hc. unfold moveCursorOnBlockDelete. unfold_monad. by rewrite Hc.
Qed.

(** X10.  [moveCursorOnBlockMutation] lifts a cursor on a field or connection of
    the mutated block (or on the block) to the block itself and leaves any
    other cursor alone; the graph and the marker are not touched, and
    calling it again changes nothing more. *)
Theorem mutation_lifts_cursor (s : Session) (mutated : BlockId) :
  ∃ s',
    moveCursorOnBlockMutation fieldSourceBlock mutated s = Ret tt s' ∧
    s' = (if bool_decide (getSourceBlock_ fieldSourceBlock (graph s)
                            (getCurNode (cursor_ s)) = Some mutated)
          then with_cursor (setLocation (Some (BlockNode mutated))) s
          else s) ∧
    graph s' = graph s ∧ marker_ s' = marker_ s ∧
    moveCursorOnBlockMutation fieldSourceBlock mutated s' = Ret tt s'.
Proof.
  unfold moveCursorOnBlockMutation. unfold_monad.
  destruct (getSourceBlock_ _ _ (getCurNode (cursor_ s))) as [b|] eqn:Hsrc.
  - destruct (decide (b = mutated)) as [->|Hne].
    + rewrite !bool_decide_eq_true_2 by done. eexists. split_and!; try reflexivity.
      simpl. by rewrite bool_decide_eq_true_2.
    + rewrite !bool_decide_eq_false_2 by congruence. eexists.
      split_and!; try reflexivity. rewrite Hsrc. by rewrite bool_decide_eq_false_2.
  - rewrite bool_decide_eq_false_2 by done. eexists. split_and!; try reflexivity.
    by rewrite Hsrc.
Qed.

(** X11.  The top node of a block is a node of that block: in a graph whose
    references are in order, the block that [getSourceBlock_] finds for
    [getTopNode_ block] is [block], and the node is the previous connection
    when there is one, else the output connection, else the block. *)
Theorem getTopNode_of_block (g : Graph) (block : BlockId) :
  valid g →
  getSourceBlock_ fieldSourceBlock g (Some (getTopNode_ g block)) = Some block ∧
  getTopNode_ g block =
    match previousConnection g block, outputConnection g block with
    | Some p, _ => ConnectionNode (connType g p) p
    | None, Some o => ConnectionNode (connType g o) o
    | None, None => BlockNode block
    end.
Proof.
  intros [Htop _]. unfold getTopNode_. split.
  - destruct (topConnection g block) as [c|] eqn:Hc; [|done].
    simpl. f_equal. by apply Htop.
  - unfold topConnection. destruct (previousConnection g block); [done|].
    by destruct (outputConnection g block).
Qed.

(** *** Editors without toolbox *)

(** X12.  In an editor without toolbox the "toolbox" action on the workspace
    opens the flyout; "out" from there calls [focusToolbox], which throws on
    the missing toolbox after it has already set the focus state to the
    toolbox and dropped the flyout selection. *)
Theorem out_of_flyout_without_toolbox (s : Session) :
  currentState_ s = STATE_WS → hasToolbox s = false →
  ∃ s1,
    onBlocklyAction E TOOLBOX_ s = Ret true s1 ∧
    currentState_ s1 = STATE_FLYOUT ∧ hasToolbox s1 = false ∧
    ∃ s2,
      onBlocklyAction E OUT_ s1 = Throw TypeError s2 ∧
      currentState_ s2 = STATE_TOOLBOX ∧ flyoutBlock_ s2 = None ∧
      graph s2 = graph s.
Proof.
  intros Hst Htb.
  assert (Hopen : ∃ s1, focusFlyout s = Ret tt s1 ∧ currentState_ s1 = STATE_FLYOUT ∧
                        hasToolbox s1 = false ∧ graph s1 = graph s).
  { unfold focusFlyout, markAtCursor. unfold_monad. simpl.
    destruct (getCurNode (marker_ s)); simpl;
      destruct (flyout s) as [[v [[|b l]|]]|]; simpl; eauto. }
  destruct Hopen as (s1 & Hff & Hst1 & Htb1 & Hg1).
  assert (Hthrow : ∃ s2, focusToolbox E s1 = Throw TypeError s2 ∧
                         currentState_ s2 = STATE_TOOLBOX ∧ flyoutBlock_ s2 = None ∧
                         graph s2 = graph s1).
  { unfold focusToolbox, resetFlyout, markAtCursor. unfold_monad. simpl. rewrite Htb1.
    destruct (getCurNode (marker_ s1)); simpl;
      destruct (currentCategory_ s1); simpl; eauto. }
  destruct Hthrow as (s2 & Hft & Hst2 & Hfb2 & Hg2).
  exists s1. split_and!; try done.
  - unfold onBlocklyAction. unfold bind at 1. unfold get at 1. cbv beta iota.
    rewrite Hst.
    change (workspaceOnAction_ E TOOLBOX_ s)
      with (handled (bind get (λ s0, if negb (hasToolbox s0)
                                     then focusFlyout else focusToolbox E)) s).
    unfold handled. unfold bind at 1. unfold bind at 1. unfold get at 1.
    cbv beta iota. rewrite Htb. simpl. by rewrite Hff.
  - exists s2. split_and!; try done; [|congruence].
    unfold onBlocklyAction. unfold bind at 1. unfold get at 1. cbv beta iota.
    rewrite Hst1.
    change (flyoutOnAction_ E OUT_) with (handled (focusToolbox E)).
    unfold handled, bind. by rewrite Hft.
Qed.

(** *** After an insertion from the flyout *)

(** X13.  When [insertFromFlyout] has created the block and its [modify] returns
    (true or false), the function runs to its end: the focus is on the
    workspace, the flyout selection is dropped, the marker is removed and
    hidden, the cursor is on the top node of the new block, and the graph is
    the one [modify] left. *)
Theorem insertFromFlyout_ends (s s1 : Session) fl g' (newBlock : BlockId) (ok : bool) :
  flyout s = Some fl → fl_visible fl = true →
  createBlock E (graph s) (flyoutBlock_ s) = Some (g', newBlock) →
  modify E (inserting s g' newBlock) = Ret ok s1 →
  ∃ s2,
    insertFromFlyout E s = Ret tt s2 ∧
    currentState_ s2 = STATE_WS ∧ flyoutBlock_ s2 = None ∧
    marker_ s2 = mkCursor None false ∧
    getCurNode (cursor_ s2) = Some (getTopNode_ (graph s1) newBlock) ∧
    graph s2 = graph s1 ∧
    (ok = false →
     Report WARN "Something went wrong while inserting a block from the flyout."
       ∈ calls s2).
Proof.
  intros Hfl Hvis Hcreate Hmod.
  rewrite (insertFromFlyout_open s fl g' newBlock) by done.
  unfold bind at 1. rewrite Hmod.
  pose proof (modify_unchanged (inserting s g' newBlock)) as Hun.
  rewrite Hmod in Hun. destruct Hun as (_&_&_&_&_&_&_&_&_&Hfl1).
  simpl in Hfl1. rewrite Hfl in Hfl1.
  unfold focusWorkspace, resetFlyout, enableKeyboardAccessibility, removeMark.
  unfold_monad.
  destruct ok; simpl; rewrite ?Hfl1;
    destruct (hasToolbox s1); simpl; rewrite ?Hfl1; simpl;
    destruct (selected s1); simpl;
    eexists; (split; [reflexivity|]); simpl; split_and!; try done;
    intros _; rewrite !elem_of_app, !list_elem_of_singleton; auto.
Qed.

(** *** Moving among the categories *)

(** X14.  In the toolbox "previous", "next" and "out" move among the categories
    only: they return true, the focus stays on the toolbox, and graph,
    cursor and marker are as before. *)
Theorem category_moves_stay (s : Session) (name : string) :
  currentState_ s = STATE_TOOLBOX →
  name = PREVIOUS_ ∨ name = NEXT_ ∨ name = OUT_ →
  ∃ s',
    onBlocklyAction E name s = Ret true s' ∧
    currentState_ s' = STATE_TOOLBOX ∧
    graph s' = graph s ∧ cursor_ s' = cursor_ s ∧ marker_ s' = marker_ s ∧
    flyoutBlock_ s' = flyoutBlock_ s.
Proof.
  intros Hst Hname.
  unfold onBlocklyAction. unfold bind at 1. unfold get at 1. cbv beta iota.
  rewrite Hst.
  destruct Hname as [-> | [-> | ->]].
  - change (toolboxOnAction_ E PREVIOUS_) with (handled (previousCategory E)).
    unfold handled, previousCategory. unfold_monad.
    destruct (currentCategory_ s); [|by eauto 10].
    destruct (getPreviousShownNode E _ _); by eauto 10.
  - change (toolboxOnAction_ E NEXT_) with (handled (nextCategory E)).
    unfold handled, nextCategory. unfold_monad.
    destruct (currentCategory_ s); [|by eauto 10].
    destruct (getNextShownNode E _ _); by eauto 10.
  - change (toolboxOnAction_ E OUT_) with (handled (outCategory E)).
    unfold handled, outCategory. unfold_monad.
    destruct (currentCategory_ s); [|by eauto 10].
    destruct (_ && _); [by eauto 10|].
    destruct (getParentNode E _ _); [|by eauto 10].
    case_bool_decide; by eauto 10.
Qed.

(** *** The workspace actions keep the graph a forest *)

Lemma acyclic_subrel g g' :
  (∀ x p, getParent g' x = Some p → getParent g x = Some p) → acyclic g → acyclic g'.
Proof.
  intros Hsub Hacy b Hcyc. apply (Hacy b).
  assert (Htc : ∀ x y, tc (parent_of g') x y → tc (parent_of g) x y).
  { intros x y Hxy. induction Hxy as [x y Hxy|x y z Hxy _ IH].
    - apply tc_once. exact (Hsub _ _ Hxy).
    - eapply tc_l; [exact (Hsub _ _ Hxy)|exact IH]. }
  by apply Htc.
Qed.

Lemma getParent_setXY g b xy x : getParent (setXY g b xy) x = getParent g x.
Proof.
  assert (Htop : topConnection (setXY g b xy) x = topConnection g x).
  { unfold topConnection, previousConnection, outputConnection, theBlock, setXY. simpl.
    destruct (decide (x = b)) as [->|Hne].
    - rewrite list_lookup_alter_eq. by destruct (_ !! _).
    - by rewrite list_lookup_alter_ne. }
  unfold getParent. by rewrite Htop.
Qed.

Lemma valid_setXY g b xy : valid g → valid (setXY g b xy).
Proof.
  intros [Htop Hsrc]. split.
  - intros x c Hc. apply Htop.
    revert Hc. unfold topConnection, previousConnection, outputConnection, theBlock, setXY.
    simpl. destruct (decide (x = b)) as [->|Hne].
    + rewrite list_lookup_alter_eq. by destruct (_ !! _).
    + by rewrite list_lookup_alter_ne.
  - intros c k Hk. unfold setXY. simpl. rewrite length_alter. by eapply Hsrc.
Qed.

Lemma dropped_sound g b xy :
  valid g → acyclic g → valid (dropped g b xy) ∧ acyclic (dropped g b xy).
Proof.
  intros Hv Hacy. unfold dropped, moveTo, unplug.
  destruct (getParent g b); [destruct (topConnection g b)|]; split;
    try (by apply valid_setXY; try apply valid_disconnect);
    (eapply acyclic_subrel; [|exact Hacy]); intros x p; rewrite getParent_setXY;
    try done; apply getParent_disconnect.
Qed.

Lemma moveToWorkspace_graph (s : Session) b xy :
  graph (after (moveToWorkspace b xy s)) = graph s ∨
  graph (after (moveToWorkspace b xy s)) = dropped (graph s) b xy.
Proof.
  unfold moveToWorkspace, dropped. unfold_monad.
  destruct (isShadow (graph s) b); [by left|]. right.
  destruct (getParent (graph s) b) eqn:Hp; unfold with_graph; simpl; by rewrite ?Hp.
Qed.

(** [modify] returns, and keeps the graph in order and free of cycles,
    unless it throws at an input without connection, the session being as
    it was. *)
Lemma modify_sound (s : Session) :
  roles_ok E → check_ok E → valid (graph s) → acyclic (graph s) →
  (∃ r s', modify E s = Ret r s' ∧ valid (graph s') ∧ acyclic (graph s')) ∨
  (modify E s = Throw TypeError s ∧ ∃ b, None ∈ inputList (graph s) b).
Proof.
  intros Hroles Hcheck Hv Hacy.
  set (sound := λ o : @Outcome Tree Cat bool,
         (∃ r s', o = Ret r s' ∧ valid (graph s') ∧ acyclic (graph s')) ∨
         (o = Throw TypeError s ∧ ∃ b, None ∈ inputList (graph s) b)).
  change (sound (modify E s)).
  assert (Hjoin : ∀ a b, compatible E (graph s) (Some a, Some b) = true →
            ∃ s', join E a b s = Ret true s' ∧ valid (graph s') ∧ acyclic (graph s')).
  { intros a b Hc. unfold compatible in Hc. apply bool_decide_eq_true in Hc.
    apply Hcheck in Hc as [Hne Hopp].
    destruct (join_keeps_acyclic s a b Hroles Hv Hacy Hne Hopp) as (_ & Hj & Hv' & Hacy').
    eauto. }
  assert (Hconnect : ∀ m d, sound (connect E (Some m) (Some d) s)).
  { intros m d. left. rewrite connect_find.
    destruct (List.find _ _) as [[oa ob]|] eqn:Hfind.
    - apply find_some in Hfind as [_ Hc].
      destruct oa as [a|], ob as [b|]; try discriminate.
      destruct (Hjoin a b Hc) as (s' & -> & ?). eauto.
    - exists false, (after (checkConnection_caught E d m s)).
      split; [done|]. unfold checkConnection_caught. unfold_monad.
      by destruct (canConnectWithReason_ E (graph s) d m). }
  assert (Hfound : ∀ d l,
            match List.find (λ c, compatible E (graph s) (c, Some d)) l with
            | Some (Some a) =>
                ∃ s', join E a d s = Ret true s' ∧ valid (graph s') ∧ acyclic (graph s')
            | _ => True
            end).
  { intros d l. destruct (List.find _ _) as [[a|]|] eqn:Hfind; [|done..].
    apply find_some in Hfind as [_ Hc]. by apply Hjoin. }
  assert (Hinsert : ∀ b d, sound (insertBlock E b d s)).
  { intros b d. destruct (decide (connType (graph s) d = OUTPUT_VALUE)) as [Hty|Hty].
    - rewrite insertBlock_output by done.
      pose proof (Hfound d (Some <$> filter (λ c, connType (graph s) c = INPUT_VALUE)
                              (leadingConnections (inputList (graph s) b)))) as Hf.
      destruct (List.find _ _) as [[a|]|].
      + destruct Hf as (s' & -> & ?). left. eauto.
      + case_bool_decide; [right; eauto|left; eauto].
      + case_bool_decide; [right; eauto|left; eauto].
    - rewrite insertBlock_find by done.
      pose proof (Hfound d (offered (graph s) b d)) as Hf.
      destruct (List.find _ _) as [[a|]|].
      + destruct Hf as (s' & -> & ?). left. eauto.
      + left. eauto.
      + left. eauto. }
  assert (Hdrop : ∀ b xy, sound (moveToWorkspace b xy s)).
  { intros b xy. left.
    assert (∃ r s', moveToWorkspace b xy s = Ret r s') as (r & s' & Hr).
    { unfold moveToWorkspace. unfold_monad.
      destruct (isShadow (graph s) b); [eauto|]. case_bool_decide; eauto. }
    exists r, s'. split; [done|].
    destruct (moveToWorkspace_graph s b xy) as [Hg|Hg]; rewrite Hr in Hg; simpl in Hg;
      rewrite Hg; [done|by apply dropped_sound]. }
  assert (Hret : ∀ r s', graph s' = graph s → sound (Ret r s')).
  { intros r s' Hg. left. exists r, s'. by rewrite Hg. }
  unfold modify. unfold bind at 1. unfold get at 1. cbv beta iota.
  destruct (getCurNode (marker_ s)) as [m|]; [|by apply Hret].
  destruct (getCurNode (cursor_ s)) as [c|]; [|by apply Hret].
  do 5 (case_bool_decide; [by apply Hret|]).
  destruct m, c; try done; try apply Hdrop; try apply Hconnect; try apply Hinsert;
    try (by apply Hret).
  destruct (_ || _); [by apply Hret|apply Hdrop].
Qed.

Lemma step_graph (to : Graph → ASTNode → option ASTNode) (s : Session) :
  ∃ s', step to s = Ret tt s' ∧ graph s' = graph s.
Proof.
  unfold step. unfold_monad.
  destruct (getCurNode (cursor_ s)) as [n|]; [|eauto].
  destruct (to (graph s) n); eauto.
Qed.

(** X15.  On the workspace no action breaks the graph.  With the roles as
    [getInferiorConnection_] reads them and a check that accepts only
    opposite types on two different blocks, whatever the action name and
    whether the action returns or throws, a graph that is in order and free
    of cycles is so afterwards.  "insert" in particular returns true, unless
    it throws at an input without connection of some block, and then the
    session is as it was. *)
Theorem workspace_actions_keep_acyclic (s : Session) (name : string) :
  roles_ok E → check_ok E → valid (graph s) → acyclic (graph s) →
  currentState_ s = STATE_WS →
  valid (graph (after (onBlocklyAction E name s))) ∧
  acyclic (graph (after (onBlocklyAction E name s))) ∧
  ((∃ s', onBlocklyAction E INSERT_ s = Ret true s') ∨
   (onBlocklyAction E INSERT_ s = Throw TypeError s ∧
    ∃ b, None ∈ inputList (graph s) b)).
Proof.
  intros Hroles Hcheck Hv Hacy Hst.
  assert (Hsame : ∀ o : @Outcome Tree Cat bool, graph (after o) = graph s →
            valid (graph (after o)) ∧ acyclic (graph (after o)))
    by (by intros o ->).
  assert (Hdispatch : ∀ name, onBlocklyAction E name s = workspaceOnAction_ E name s).
  { intros n. unfold onBlocklyAction. unfold bind at 1. unfold get at 1.
    cbv beta iota. by rewrite Hst. }
  assert (Hmodify : valid (graph (after (modify E s))) ∧
                    acyclic (graph (after (modify E s)))).
  { destruct (modify_sound s Hroles Hcheck Hv Hacy)
      as [(r & sm & -> & ? & ?)|[-> _]]; done. }
  cut (valid (graph (after (onBlocklyAction E name s))) ∧
       acyclic (graph (after (onBlocklyAction E name s)))).
  { intros [? ?]. split; [done|]. split; [done|].
    rewrite Hdispatch.
    change (workspaceOnAction_ E INSERT_ s)
      with (handled (bind (modify E) (λ _, ret tt)) s).
    unfold handled, bind.
    destruct (modify_sound s Hroles Hcheck Hv Hacy)
      as [(r & sm & -> & _)|[-> Hdummy]]; [left; eauto|by right]. }
  rewrite Hdispatch. unfold workspaceOnAction_.
  assert (Hstep : ∀ to, valid (graph (after (handled (step to) s))) ∧
                          acyclic (graph (after (handled (step to) s)))).
  { intros to. apply Hsame. rewrite after_handled.
    by destruct (step_graph to s) as (s' & -> & ?). }
  repeat (case_bool_decide; [apply Hstep|]).
  case_bool_decide.
  { rewrite after_handled. unfold bind.
    destruct (modify E s); exact Hmodify. }
  case_bool_decide.
  { apply Hsame. rewrite after_handled. unfold handleEnterForWS, markAtCursor.
    unfold_monad. destruct (getCurNode (cursor_ s)) as [[]|]; done. }
  case_bool_decide.
  { rewrite after_handled. unfold disconnectBlocks. unfold_monad.
    destruct (getCurNode (cursor_ s)) as [[f|b|b|w|role c]|]; try done.
    destruct (targetConnection (graph s) c) as [t|]; [|done].
    simpl. destruct (isShadow _ _); [done|]. simpl. split.
    - by apply valid_disconnect.
    - eapply acyclic_subrel; [|exact Hacy]. intros x p. apply getParent_disconnect. }
  case_bool_decide.
  { apply Hsame. rewrite after_handled. unfold bind at 1. unfold get at 1.
    cbv beta iota. destruct (negb (hasToolbox s)).
    - unfold focusFlyout, markAtCursor. unfold_monad. simpl.
      destruct (getCurNode (marker_ s)); simpl;
        by destruct (flyout s) as [[v [[|b l]|]]|].
    - unfold focusToolbox, resetFlyout, markAtCursor. unfold_monad. simpl.
      destruct (getCurNode (marker_ s)); simpl;
        destruct (currentCategory_ s); simpl; by destruct (hasToolbox s). }
  by apply Hsame.
Qed.

End Properties.

(** ** The functions at work on the small editor *)

Lemma E0_roles_ok : roles_ok E0.
Proof. intros t. reflexivity. Qed.

Lemma E0_check_ok : check_ok E0.
Proof.
  intros g this target. simpl.
  case_bool_decide as Hsame; [done|].
  destruct (opposite _ _); [done|discriminate].
Qed.

Lemma g0_valid : valid g0.
Proof.
  split.
  - intros b c.
    do 5 (destruct b as [|b]; [vm_compute; intros [= <-]; auto|]).
    vm_compute. by destruct b.
  - intros c k.
    do 9 (destruct c as [|c]; [intros [= <-]; vm_compute; lia|]).
    by destruct c.
Qed.

Lemma g0_acyclic : acyclic g0.
Proof. apply acyclicb_acyclic. reflexivity. Qed.

Lemma g0_mutual : mutual g0.
Proof.
  intros c t.
  do 9 (destruct c as [|c]; [vm_compute; intros [= <-]; done|]).
  vm_compute. by destruct c.
Qed.

(** The cursor on the previous connection of block 0, the marker on the
    next connection of block 1, which is stacked below block 0: the first
    candidate pair passes, the link between the two blocks is severed and
    block 0 ends up below block 1. *)
Lemma connect_first_compatible_witness :
  List.find (compatible E0 g0) (candidates E0 g0 0 3) = Some (Some 0, Some 3) ∧
  targetConnection (connectTo (disconnect g0 2) 3 0) 0 = Some 3 ∧
  targetConnection (connectTo (disconnect g0 2) 3 0) 3 = Some 0.
Proof.
  split; [reflexivity|].
  apply (proj2 (proj2 (connect_first_compatible E0 (session g0 None None) 0 3))
           0 3 true
           (with_graph (λ _, connectTo (disconnect g0 2) 3 0) (session g0 None None))).
  - reflexivity.
  - vm_compute. lia.
  - vm_compute. lia.
  - reflexivity.
Defined.


(** A block marked as anchor is turned down. *)
Lemma modify_rejects_witness :
  ∃ msg, modify E0 (session g0 (Some (ConnectionNode PREVIOUS_STATEMENT 6))
                      (Some (BlockNode 0)))
         = Ret false (reported WARN msg
                        (session g0 (Some (ConnectionNode PREVIOUS_STATEMENT 6))
                           (Some (BlockNode 0)))) ∧
         graph (reported WARN msg
                  (session g0 (Some (ConnectionNode PREVIOUS_STATEMENT 6))
                     (Some (BlockNode 0)))) = g0.
Proof.
  apply (modify_rejects E0). right. right. left.
  exists (BlockNode 0). split; [reflexivity|]. right. left. reflexivity.
Defined.

(** The output connection of the value block 2 cannot be joined to the
    previous connection of block 0, whichever counterparts are tried. *)
Lemma connect_failure_witness :
  Forall (λ p, compatible E0 g0 p = false) (candidates E0 g0 4 0) ∧
  ∃ e, canConnectWithReason_ E0 g0 0 4 = REFUSED e ∧
       connect E0 (Some 4) (Some 0) (session g0 None None) =
         Ret false (reported WARN ("Connection failed with error: " +:+ e)
                      (session g0 None None)).
Proof.
  assert (Hall : Forall (λ p, compatible E0 g0 p = false) (candidates E0 g0 4 0)).
  { repeat (apply Forall_cons; split; [reflexivity|]). apply Forall_nil_2. }
  split; [exact Hall|].
  apply (proj1 (connect_failure E0 (session g0 None None) 4 0)). exact Hall.
Defined.

(** The value block 2 of [g1] holds its field in an input without
    connection: with the marker on the output connection 8 of block 4 and
    the cursor on block 2, [insertBlock], [modify] and the "insert" action
    throw. *)
Lemma insertBlock_throws_at_dummy_input_witness :
  inputList g1 2 = [None] ∧
  insertBlock E0 2 8 (session g1 (Some (BlockNode 2)) (Some (ConnectionNode OUTPUT_VALUE 8)))
    = Throw TypeError
        (session g1 (Some (BlockNode 2)) (Some (ConnectionNode OUTPUT_VALUE 8))) ∧
  modify E0 (session g1 (Some (BlockNode 2)) (Some (ConnectionNode OUTPUT_VALUE 8)))
    = Throw TypeError
        (session g1 (Some (BlockNode 2)) (Some (ConnectionNode OUTPUT_VALUE 8))) ∧
  onBlocklyAction E0 INSERT_
      (session g1 (Some (BlockNode 2)) (Some (ConnectionNode OUTPUT_VALUE 8)))
    = Throw TypeError
        (session g1 (Some (BlockNode 2)) (Some (ConnectionNode OUTPUT_VALUE 8))).
Proof.
  split; [reflexivity|].
  assert (Hdummy : None ∈ inputList g1 2) by (change (None ∈ [@None ConnId]); by left).
  destruct (insertBlock_throws_at_dummy_input E0
              (session g1 (Some (BlockNode 2)) (Some (ConnectionNode OUTPUT_VALUE 8)))
              2 8 eq_refl Hdummy (Forall_nil_2 _))
    as [Hinsert Hrest].
  split; [exact Hinsert|].
  destruct (Hrest eq_refl eq_refl) as [Hmodify Haction].
  split; [exact Hmodify|exact (Haction eq_refl)].
Defined.

(** Block 0 has no output connection: it cannot be inserted at the input 5
    of block 3.  Block 3 has two inputs, each with a connection: at the
    output 4 of block 2 it is inserted by its first input. *)
Lemma insertBlock_offers_witness :
  connType g0 5 = INPUT_VALUE ∧ outputConnection g0 0 = None ∧
  insertBlock E0 0 5 (session g0 None None) =
    Ret false (reported WARN "This block can not be inserted at the marked location."
                 (session g0 None None)) ∧
  insertBlock E0 3 4 (session g0 None None) = join E0 5 4 (session g0 None None).
Proof.
  split; [reflexivity|]. split; [reflexivity|]. split.
  - assert (Hno : connType g0 5 = OUTPUT_VALUE → None ∉ inputList g0 0)
      by (vm_compute; discriminate).
    apply (proj2 (insertBlock_offers E0 (session g0 None None) 0 5 Hno)); reflexivity.
  - assert (Hno : connType g0 4 = OUTPUT_VALUE → None ∉ inputList g0 3).
    { intros _. change (None ∉ [Some 5; Some 7]).
      rewrite !not_elem_of_cons. split_and!; try discriminate. apply not_elem_of_nil. }
    etrans; [apply (proj1 (insertBlock_offers E0 (session g0 None None) 3 4 Hno))|].
    reflexivity.
Defined.

(** Block 1 is dropped at (50, 50): it is detached from block 0 first. *)
Lemma modify_to_workspace_witness :
  modify E0 (session g0 (Some (StackNode 1)) (Some (WorkspaceNode (50, 50)%Z))) =
    Ret true (with_graph (λ g, dropped g 1 (50, 50)%Z)
                (session g0 (Some (StackNode 1)) (Some (WorkspaceNode (50, 50)%Z)))) ∧
  getParent g0 1 = Some 0 ∧
  getParent (dropped g0 1 (50, 50)%Z) 1 = None.
Proof.
  split; [|split; reflexivity].
  apply (modify_to_workspace E0
           (session g0 (Some (StackNode 1)) (Some (WorkspaceNode (50, 50)%Z)))
           (50, 50)%Z (StackNode 1)).
  - reflexivity.
  - reflexivity.
  - right. right. reflexivity.
Defined.

(** The cursor on the previous connection of block 1, joined to the next
    connection of block 0: the join is severed at the next connection. *)
Lemma disconnectBlocks_cases_witness :
  disconnectBlocks E0 (session g0 (Some (ConnectionNode PREVIOUS_STATEMENT 2)) None) =
    Ret tt (severed (session g0 (Some (ConnectionNode PREVIOUS_STATEMENT 2)) None) 1 2) ∧
  targetConnection
    (graph (severed (session g0 (Some (ConnectionNode PREVIOUS_STATEMENT 2)) None) 1 2)) 1
    = None.
Proof.
  split.
  - apply (proj1 (disconnectBlocks_cases E0
             (session g0 (Some (ConnectionNode PREVIOUS_STATEMENT 2)) None)
             (ConnectionNode PREVIOUS_STATEMENT 2) eq_refl)).
  - apply (proj2 (disconnectBlocks_cases E0
             (session g0 (Some (ConnectionNode PREVIOUS_STATEMENT 2)) None)
             (ConnectionNode PREVIOUS_STATEMENT 2) eq_refl)
             PREVIOUS_STATEMENT 2 1 eq_refl eq_refl g0_mutual).
Defined.

(** A cursor that was never given a location: [disconnectBlocks] throws. *)
Lemma disconnectBlocks_without_location_witness :
  disconnectBlocks E0 (session g0 None None) = Throw TypeError (session g0 None None) ∧
  onBlocklyAction E0 DISCONNECT_ (session g0 None None)
    = Throw TypeError (session g0 None None).
Proof.
  split.
  - apply (proj1 (disconnectBlocks_without_location E0 (session g0 None None) eq_refl)).
  - apply (proj2 (disconnectBlocks_without_location E0 (session g0 None None) eq_refl)).
    reflexivity.
Defined.

(** C8.  On the workspace, with a cursor that holds no location, the
    actions "disconnect" and "mark" throw: [disconnectBlocks] and
    [handleEnterForWS] call a method on the null node. *)
Lemma dispatch_throws_without_location :
  onBlocklyAction E0 DISCONNECT_ (session g0 None None)
    = Throw TypeError (session g0 None None) ∧
  onBlocklyAction E0 MARK_ (session g0 None None)
    = Throw TypeError (session g0 None None).
Proof. split; reflexivity. Qed.

(** C9 as stated fails: with the marker on the input 5 of block 3, the
    block created from the flyout has no output connection, the insertion
    fails ([modify] returns false and the failure is reported), and yet the
    focus is on the workspace afterwards. *)
Lemma failed_insert_moves_focus :
  let s := flyoutSession g0 None (Some (ConnectionNode INPUT_VALUE 5)) in
  let g' := mkGraph (conns g0) (blocks g0 ++ [noBlock]) in
  currentState_ s = STATE_FLYOUT ∧
  createBlock E0 (graph s) (flyoutBlock_ s) = Some (g', 5) ∧
  (∃ s1, modify E0 (inserting s g' 5) = Ret false s1) ∧
  calls (after (onBlocklyAction E0 MARK_ s)) =
    [ Render 5; SetConnectionsHidden 5 false;
      Report WARN "This block can not be inserted at the marked location.";
      Report WARN "Something went wrong while inserting a block from the flyout." ] ∧
  currentState_ (after (onBlocklyAction E0 MARK_ s)) = STATE_WS.
Proof.
  cbv zeta. split; [reflexivity|]. split; [reflexivity|].
  split; [eexists; vm_compute; reflexivity|].
  split; vm_compute; reflexivity.
Qed.

(** The insertion of [failed_insert_moves_focus] against the amended
    statement: the focus came to the workspace by "mark" in the flyout, with
    the flyout visible, the block created and [modify] returning; and an
    insertion under these conditions does end on the workspace. *)
Lemma focus_back_to_workspace_witness :
  currentState_ (flyoutSession g0 None (Some (ConnectionNode INPUT_VALUE 5))) ≠ STATE_WS ∧
  (MARK_ = EXIT_ ∨
   (MARK_ = MARK_ ∧
    currentState_ (flyoutSession g0 None (Some (ConnectionNode INPUT_VALUE 5)))
      = STATE_FLYOUT ∧
    ∃ fl, flyout (flyoutSession g0 None (Some (ConnectionNode INPUT_VALUE 5))) = Some fl ∧
          fl_visible fl = true ∧
          ∃ g' newBlock ok s1,
            createBlock E0
              (graph (flyoutSession g0 None (Some (ConnectionNode INPUT_VALUE 5))))
              (flyoutBlock_ (flyoutSession g0 None (Some (ConnectionNode INPUT_VALUE 5))))
              = Some (g', newBlock) ∧
            modify E0
              (inserting (flyoutSession g0 None (Some (ConnectionNode INPUT_VALUE 5)))
                 g' newBlock) = Ret ok s1)) ∧
  (∃ s2, onBlocklyAction E0 MARK_
           (flyoutSession g0 None (Some (ConnectionNode INPUT_VALUE 5))) = Ret true s2 ∧
         currentState_ s2 = STATE_WS).
Proof.
  split; [discriminate|]. split.
  - apply (proj1 (focus_back_to_workspace E0
                    (flyoutSession g0 None (Some (ConnectionNode INPUT_VALUE 5))) MARK_)).
    + discriminate.
    + reflexivity.
  - apply (proj1 (proj2 (focus_back_to_workspace E0
                    (flyoutSession g0 None (Some (ConnectionNode INPUT_VALUE 5))) MARK_))
             (mkFlyout true (Some [2]))
             (mkGraph (conns g0) (blocks g0 ++ [noBlock])) 5 false
             (after (modify E0
                       (inserting
                          (flyoutSession g0 None (Some (ConnectionNode INPUT_VALUE 5)))
                          (mkGraph (conns g0) (blocks g0 ++ [noBlock])) 5))));
      reflexivity.
Defined.

(** ** The further statements at work *)

Lemma flyout_next_then_previous_witness :
  ∃ s1 s2,
    selectNextBlockInFlyout (paletteSession (Some 4)) = Ret tt s1 ∧
    flyoutBlock_ s1 = Some 3 ∧ getCurNode (cursor_ s1) = Some (BlockNode 3) ∧
    selectPreviousBlockInFlyout s1 = Ret tt s2 ∧
    flyoutBlock_ s2 = Some 4 ∧ getCurNode (cursor_ s2) = Some (BlockNode 4) ∧
    graph s2 = graph (paletteSession (Some 4)) ∧
    marker_ s2 = marker_ (paletteSession (Some 4)).
Proof.
  apply (flyout_next_then_previous (paletteSession (Some 4)) 1 4 3).
  - reflexivity.
  - vm_compute. repeat constructor; rewrite ?elem_of_cons, ?elem_of_nil; lia.
  - reflexivity.
  - reflexivity.
Defined.

Lemma flyout_selection_stops_witness :
  selectNextBlockInFlyout (paletteSession (Some 3)) = Ret tt (paletteSession (Some 3)) ∧
  selectPreviousBlockInFlyout (paletteSession (Some 2)) = Ret tt (paletteSession (Some 2)).
Proof.
  split.
  - apply (proj1 (flyout_selection_stops (paletteSession (Some 3))) 3 [2; 4]).
    + reflexivity.
    + vm_compute. repeat constructor; rewrite ?elem_of_cons, ?elem_of_nil; lia.
    + reflexivity.
  - apply (proj1 (proj2 (flyout_selection_stops (paletteSession (Some 2)))) 2 [4; 3]);
      reflexivity.
Defined.

(** "exit" is not an action of the workspace. *)
Lemma dispatch_by_table_witness :
  onBlocklyAction E0 EXIT_ (session g0 None None) = Ret false (session g0 None None) ∧
  false = bool_decide (EXIT_ ∈ actionsOf STATE_WS).
Proof.
  split; [reflexivity|].
  apply (proj1 (dispatch_by_table E0 (session g0 None None) (session g0 None None)
                  EXIT_ false eq_refl)).
Defined.

Lemma focusWorkspace_ready_witness :
  ∃ s1,
    focusWorkspace (session g0 None None) = Ret tt s1 ∧
    currentState_ s1 = STATE_WS ∧ keyboardAccessibilityMode s1 = true ∧
    flyoutBlock_ s1 = None ∧ selected s1 = None ∧
    graph s1 = g0 ∧ getCurNode (marker_ s1) = None ∧
    getCurNode (cursor_ s1) = Some (WorkspaceNode (100, 100)%Z) ∧
    (∃ s2, onBlocklyAction E0 DISCONNECT_ s1 = Ret true s2) ∧
    (∃ s2, onBlocklyAction E0 MARK_ s1 = Ret true s2).
Proof.
  apply (focusWorkspace_ready E0 (session g0 None None)). discriminate.
Defined.

(** A cursor on block 0 marks nothing. *)
Lemma handleEnterForWS_markable_witness :
  ∃ s',
    handleEnterForWS (session g0 (Some (BlockNode 0)) None) = Ret tt s' ∧
    getCurNode (marker_ s') = None ∧
    markable (getCurNode (marker_ s')) ∧
    graph s' = g0 ∧ cursor_ s' = mkCursor (Some (BlockNode 0)) true.
Proof.
  apply (handleEnterForWS_markable (session g0 (Some (BlockNode 0)) None) (BlockNode 0)).
  - reflexivity.
  - exact I.
Defined.

Lemma focusFlyout_marks_block_witness :
  getCurNode (marker_ (after (focusFlyout (session g0 (Some (BlockNode 0)) None))))
    = Some (BlockNode 0) ∧
  modify E0 (session g0 (Some (BlockNode 2)) (Some (BlockNode 0))) =
    Ret false (reported WARN "Should not have been able to mark a block."
                 (session g0 (Some (BlockNode 2)) (Some (BlockNode 0)))).
Proof.
  split.
  - apply (proj1 (focusFlyout_marks_block E0 (session g0 (Some (BlockNode 0)) None) 0
                    eq_refl eq_refl)).
  - apply (proj2 (focusFlyout_marks_block E0 (session g0 (Some (BlockNode 0)) None) 0
                    eq_refl eq_refl)).
    + reflexivity.
    + by eexists.
Defined.

(** Block 1 hangs below block 0: when it is deleted with the cursor on its
    next connection, the cursor moves to the next connection of block 0. *)
Lemma cursor_leaves_deleted_block_witness :
  ∃ s',
    moveCursorOnBlockDelete (λ _, 0) 1
      (session g0 (Some (ConnectionNode NEXT_STATEMENT 3)) None) = Ret tt s' ∧
    getCurNode (cursor_ s') = Some (ConnectionNode NEXT_STATEMENT 1).
Proof.
  destruct (cursor_leaves_deleted_block (λ _, 0)
              (session g0 (Some (ConnectionNode NEXT_STATEMENT 3)) None) 1
              g0_acyclic eq_refl) as (s' & Hrun & _ & _ & _ & Hcur).
  exists s'. split; [exact Hrun|].
  change (getParent (graph (session g0 (Some (ConnectionNode NEXT_STATEMENT 3)) None)) 1)
    with (Some 0) in Hcur.
  destruct Hcur as (c & Hc & t & Ht & _ & ->).
  injection Hc as <-. injection Ht as <-. reflexivity.
Defined.

(** When block 0 is deleted with the cursor on its child block 1, the cursor
    moves to the workspace at the position of block 1. *)
Lemma cursor_beside_deleted_block_witness :
  moveCursorOnBlockDelete (λ _, 0) 0 (session g0 (Some (BlockNode 1)) None) =
    Ret tt (session g0 (Some (WorkspaceNode (0, 20)%Z)) None).
Proof.
  apply (proj1 (cursor_beside_deleted_block (λ _, 0)
                  (session g0 (Some (BlockNode 1)) None) 0) 1); [reflexivity|lia].
Defined.

Lemma getTopNode_of_block_witness :
  getSourceBlock_ (λ _, 0) g0 (Some (getTopNode_ g0 2)) = Some 2 ∧
  getTopNode_ g0 2 = ConnectionNode OUTPUT_VALUE 4.
Proof. apply (getTopNode_of_block (λ _, 0) g0 2 g0_valid). Defined.

Lemma out_of_flyout_without_toolbox_witness :
  ∃ s1,
    onBlocklyAction E0 TOOLBOX_ (session g0 None None) = Ret true s1 ∧
    currentState_ s1 = STATE_FLYOUT ∧ hasToolbox s1 = false ∧
    ∃ s2,
      onBlocklyAction E0 OUT_ s1 = Throw TypeError s2 ∧
      currentState_ s2 = STATE_TOOLBOX ∧ flyoutBlock_ s2 = None ∧
      graph s2 = g0.
Proof.
  apply (out_of_flyout_without_toolbox E0 (session g0 None None)); reflexivity.
Defined.

(** The insertion of the counterexample to C9, to its end. *)
Lemma insertFromFlyout_ends_witness :
  ∃ s2,
    insertFromFlyout E0 (flyoutSession g0 None (Some (ConnectionNode INPUT_VALUE 5)))
      = Ret tt s2 ∧
    currentState_ s2 = STATE_WS ∧ flyoutBlock_ s2 = None ∧
    marker_ s2 = mkCursor None false ∧
    getCurNode (cursor_ s2) = Some (BlockNode 5).
Proof.
  destruct (insertFromFlyout_ends E0
              (flyoutSession g0 None (Some (ConnectionNode INPUT_VALUE 5)))
              (after (modify E0
                        (inserting
                           (flyoutSession g0 None (Some (ConnectionNode INPUT_VALUE 5)))
                           (mkGraph (conns g0) (blocks g0 ++ [noBlock])) 5)))
              (mkFlyout true (Some [2]))
              (mkGraph (conns g0) (blocks g0 ++ [noBlock])) 5 false
              eq_refl eq_refl eq_refl eq_refl)
    as (s2 & Hrun & Hst & Hfb & Hm & Hc & _).
  exists s2. by split_and!.
Defined.

Lemma category_moves_stay_witness :
  ∃ s',
    onBlocklyAction E0 NEXT_ toolboxSession = Ret true s' ∧
    currentState_ s' = STATE_TOOLBOX ∧
    graph s' = g0 ∧ cursor_ s' = cursor_ toolboxSession ∧
    marker_ s' = marker_ toolboxSession ∧ flyoutBlock_ s' = None.
Proof.
  apply (category_moves_stay E0 toolboxSession NEXT_); [reflexivity|].
  right. left. reflexivity.
Defined.

(** The insertion that puts block 0 below block 1 leaves a forest. *)
Lemma workspace_actions_keep_acyclic_witness :
  let s := session g0 (Some (ConnectionNode PREVIOUS_STATEMENT 0))
             (Some (ConnectionNode NEXT_STATEMENT 3)) in
  getParent (graph (after (onBlocklyAction E0 INSERT_ s))) 0 = Some 1 ∧
  valid (graph (after (onBlocklyAction E0 INSERT_ s))) ∧
  acyclic (graph (after (onBlocklyAction E0 INSERT_ s))).
Proof.
  split; [reflexivity|].
  destruct (workspace_actions_keep_acyclic E0
              (session g0 (Some (ConnectionNode PREVIOUS_STATEMENT 0))
                 (Some (ConnectionNode NEXT_STATEMENT 3)))
              INSERT_ E0_roles_ok E0_check_ok g0_valid g0_acyclic eq_refl)
    as (Hvalid & Hacyclic & _).
  split; [exact Hvalid|exact Hacyclic].
Defined.
